(** * NSAI Data: agent execution wrapper, orchestration strategies and the
      research status store.

    A shallow embedding of [backend/agents/base.py] and of the status
    functions of [backend/api/research.py].

    Conventions of the embedding.
    - Python values are the inductive [value]; a [Dict[str, Any]] whose key
      order is observable (an agent context, envelope metadata) is an
      insertion-ordered association list, the status store is a [gmap].
    - Dict objects live in a heap ([dicts]) and are named by their address,
      so that aliasing ([self._context = context or {}]) and copying
      ([{**self._context}]) are distinct operations.
    - Code runs in a state-and-exception monad [M]; [try_except] is Python's
      [try ... except Exception].
    - A float is idealised as a rational ([Q]); a duration is kept in lowest
      terms.
    - An agent's core computation [_execute] is opaque: a function of its
      input, of the contents of the agent's context and of an external world
      [W], giving what it returns or raises, after how long, and what it left
      in the context and in the world.  One execution is taken as atomic.
    - [calls] and [writes] are ghost logs: they record which calls and which
      status writes happened, and no modelled code reads them.
    - The wrapper under computations that run without suspending, or end
      with an exception that is not an instance of [Exception], the
      parallel orchestration and the contexts whose values are shared
      mutable objects are the subject of a second model, [Async], which
      follows this one. *)

From Stdlib Require Import ZArith QArith List String Permutation Sorted.
From stdpp Require Import base option list strings gmap pretty.

Open Scope string_scope.
Open Scope list_scope.
Open Scope stdpp_scope.
Set Warnings "-register-all".

(** ** Python values *)

Inductive value : Type :=
| VNone
| VBool (b : bool)
| VInt (n : Z)
| VFloat (q : Q)
| VStr (s : string)
| VDatetime (t : Q)
| VList (l : list value)
| VDict (d : list (string * value)).

(** An insertion-ordered [dict] with string keys. *)
Abbreviation dict := (list (string * value)).

Fixpoint dict_get (d : dict) (k : string) : option value :=
  match d with
  | [] => None
  | (k', v) :: d' => if String.eqb k' k then Some v else dict_get d' k
  end.

(** [d[k] = v]: an existing key keeps its position, a new one goes last. *)
Fixpoint dict_set (d : dict) (k : string) (v : value) : dict :=
  match d with
  | [] => [(k, v)]
  | (k', v') :: d' =>
      if String.eqb k' k then (k', v) :: d' else (k', v') :: dict_set d' k v
  end.

Definition dict_keys (d : dict) : list string := map fst d.

(** Truth value of a dict and of a list: non-empty. *)
Definition truthy {A : Type} (l : list A) : bool :=
  match l with [] => false | _ => true end.

(** ** Exceptions: the instances of [Exception] that can reach a handler.
    [asyncio.TimeoutError] is kept apart because [execute] has a handler of
    its own for it. *)

Inductive exn : Type :=
| TimeoutError
| Error (cls : string) (msg : string).

(** [str(e)] *)
Definition str_exn (e : exn) : string :=
  match e with
  | TimeoutError => EmptyString
  | Error _ msg => msg
  end.

(** ** The result envelope ([AgentResult]) *)

Record AgentResult : Type := mkAgentResult {
  agent_name : string;
  success : bool;
  data : value;
  error : option string;
  duration_ms : Q;
  metadata : dict
}.

Inductive log_record : Type :=
| LogInfo (msg : string)
| LogError (msg : string)
| LogAction (agent action : string) (duration : Q) (ok : bool)
            (err : option string).

Abbreviation loc := nat.

(** One effective write of [update_research_status] (ghost). *)
Record status_write : Type := mkWrite {
  w_id : string;
  w_status : string;
  w_progress : Z;
  w_message : string
}.

Section Model.

Context {W : Type}.

(** What one run of a core computation amounts to. *)
Record run : Type := mkRun {
  completion : exn + value;   (* raises, or returns *)
  elapsed : Q;                (* seconds until it does *)
  context_after : dict;       (* contents of [self._context] it leaves *)
  world_after : W
}.

(** An agent object: its immutable attributes and its class's [_execute].
    The mutable attributes ([_context], [next_agent]) are in the state,
    under the object's identity [aref]. *)
Record agent : Type := mkAgent {
  name : string;
  agent_id : string;          (* [self.id] *)
  timeout : Z;
  aref : nat;
  _execute : value -> dict -> W -> run
}.

(** One call of [execute], as the ghost log keeps it. *)
Record call : Type := mkCall {
  c_agent : agent;
  c_input : value;
  c_context : option loc;     (* the [context] argument *)
  c_passed : dict;            (* its contents at the call; [] for None *)
  c_result : AgentResult
}.

Record state : Type := mkState {
  dicts : list dict;                          (* heap of dict objects *)
  agent_context : gmap nat loc;               (* [BaseAgent._context] *)
  next_agent : gmap nat agent;                (* [ChainableAgent.next_agent] *)
  world : W;
  clock : Q;                                  (* wall clock, seconds *)
  log : list log_record;
  research_storage : gmap string (gmap string value);
  calls : list call;                          (* ghost *)
  writes : list status_write                  (* ghost *)
}.

Definition set_dicts (x : list dict) (s : state) : state :=
  mkState x (agent_context s) (next_agent s) (world s) (clock s) (log s)
          (research_storage s) (calls s) (writes s).
Definition set_agent_context (x : gmap nat loc) (s : state) : state :=
  mkState (dicts s) x (next_agent s) (world s) (clock s) (log s)
          (research_storage s) (calls s) (writes s).
Definition set_next_agent (x : gmap nat agent) (s : state) : state :=
  mkState (dicts s) (agent_context s) x (world s) (clock s) (log s)
          (research_storage s) (calls s) (writes s).
Definition set_world (x : W) (s : state) : state :=
  mkState (dicts s) (agent_context s) (next_agent s) x (clock s) (log s)
          (research_storage s) (calls s) (writes s).
Definition set_clock (x : Q) (s : state) : state :=
  mkState (dicts s) (agent_context s) (next_agent s) (world s) x (log s)
          (research_storage s) (calls s) (writes s).
Definition set_log (x : list log_record) (s : state) : state :=
  mkState (dicts s) (agent_context s) (next_agent s) (world s) (clock s) x
          (research_storage s) (calls s) (writes s).
Definition set_research_storage (x : gmap string (gmap string value))
    (s : state) : state :=
  mkState (dicts s) (agent_context s) (next_agent s) (world s) (clock s)
          (log s) x (calls s) (writes s).
Definition set_calls (x : list call) (s : state) : state :=
  mkState (dicts s) (agent_context s) (next_agent s) (world s) (clock s)
          (log s) (research_storage s) x (writes s).
Definition set_writes (x : list status_write) (s : state) : state :=
  mkState (dicts s) (agent_context s) (next_agent s) (world s) (clock s)
          (log s) (research_storage s) (calls s) x.

(** ** The monad *)

Definition M (A : Type) : Type := state -> (exn + A) * state.

Definition ret {A : Type} (x : A) : M A := fun s => (inr x, s).

Definition bind {A B : Type} (m : M A) (k : A -> M B) : M B :=
  fun s =>
    match m s with
    | (inl e, s') => (inl e, s')
    | (inr x, s') => k x s'
    end.

Definition raise {A : Type} (e : exn) : M A := fun s => (inl e, s).

(** [try: m  except Exception as e: h e] *)
Definition try_except {A : Type} (m : M A) (h : exn -> M A) : M A :=
  fun s =>
    match m s with
    | (inl e, s') => h e s'
    | (inr x, s') => (inr x, s')
    end.

Definition gets {A : Type} (f : state -> A) : M A := fun s => (inr (f s), s).
Definition modify (f : state -> state) : M unit := fun s => (inr tt, f s).

End Model.

Arguments run : clear implicits.
Arguments agent : clear implicits.
Arguments call : clear implicits.
Arguments state : clear implicits.
Arguments M : clear implicits.

Declare Scope py_scope.
Delimit Scope py_scope with py.
Notation "x <- m ;; k" := (bind m (fun x => k))
  (at level 100, m at next level, right associativity) : py_scope.
Notation "m ;;; k" := (bind m (fun _ => k))
  (at level 100, right associativity) : py_scope.
Open Scope py_scope.

(** ** [backend/agents/base.py] *)

Section Base.

Context {W : Type}.

Implicit Types (s : state W) (a : agent W) (context : option loc).

(** *** Heap and clock primitives *)

(** [time.time()] and [datetime.utcnow()] read the same wall clock. *)
Definition time : M W Q := gets clock.

(** Allocation of a dict object holding [d]; its address is returned. *)
Definition new_dict (d : dict) : M W loc :=
  fun s => (inr (length (dicts s)), set_dicts (dicts s ++ [d]) s).

Definition read_dict (l : loc) : M W dict :=
  gets (fun s => default [] (dicts s !! l)).

Definition write_dict (l : loc) (d : dict) : M W unit :=
  modify (fun s => set_dicts (<[l := d]> (dicts s)) s).

(** [context or {}]: the passed object when it is a non-empty dict, a new
    empty dict when it is [None] or empty. *)
Definition or_empty context : M W loc :=
  match context with
  | None => new_dict []
  | Some l => d <- read_dict l ;; if truthy d then ret l else new_dict []
  end.

(** Contents of an optional context argument. *)
Definition passed_content context s : dict :=
  match context with
  | None => []
  | Some l => default [] (dicts s !! l)
  end.

(** *** Logging ([backend/core/logging.py]) *)

Definition logger_info (msg : string) : M W unit :=
  modify (fun s => set_log (log s ++ [LogInfo msg]) s).

Definition logger_error (msg : string) : M W unit :=
  modify (fun s => set_log (log s ++ [LogError msg]) s).

Definition log_agent_action (agent action : string) (duration : Q)
    (ok : bool) (err : option string) : M W unit :=
  modify (fun s => set_log (log s ++ [LogAction agent action duration ok err]) s).

(** *** BaseAgent *)

(** Reading [self._context]; an object without the attribute raises. *)
Definition self_context a : M W loc :=
  fun s =>
    match agent_context s !! aref a with
    | Some l => (inr l, s)
    | None => (inl (Error "AttributeError" "_context"), s)
    end.

(** [self._context = l] *)
Definition assign_context a (l : loc) : M W unit :=
  modify (fun s => set_agent_context (<[aref a := l]> (agent_context s)) s).

(** The mutable part of [BaseAgent.__init__]: [self._context = {}]. *)
Definition init_agent a : M W unit :=
  l <- new_dict [] ;; assign_context a l.

(** [BaseAgent._get_metadata] *)
Definition _get_metadata a : M W dict :=
  l <- self_context a ;;
  d <- read_dict l ;;
  ret [("agent_id", VStr (agent_id a));
       ("context_keys", VList (map VStr (dict_keys d)))].

(** [BaseAgent.set_context] *)
Definition set_context a (key : string) (v : value) : M W unit :=
  l <- self_context a ;;
  d <- read_dict l ;;
  write_dict l (dict_set d key v).

(** [BaseAgent.get_context] *)
Definition get_context a (key : string) (dflt : value) : M W value :=
  l <- self_context a ;;
  d <- read_dict l ;;
  ret (default dflt (dict_get d key)).

(** Whether a run is still pending when [timeout] seconds have elapsed. *)
Definition overruns a (r : run W) : bool :=
  Qle_bool (inject_Z (timeout a)) (elapsed r).

(** [await asyncio.wait_for(self._execute(input_data), timeout=self.timeout)]:
    the computation runs on the agent's current context and on the world;
    what it left there stays; past the deadline it is abandoned and
    [asyncio.TimeoutError] is raised in its place. *)
Definition wait_for a (input_data : value) : M W value :=
  l <- self_context a ;;
  c <- read_dict l ;;
  w <- gets world ;;
  let r := _execute a input_data c w in
  write_dict l (context_after r) ;;;
  modify (set_world (world_after r)) ;;;
  modify (fun s =>
    set_clock (clock s + (if overruns a r then inject_Z (timeout a)
                          else elapsed r))%Q s) ;;;
  if overruns a r then raise TimeoutError
  else match completion r with
       | inl e => raise e
       | inr v => ret v
       end.

(** [(now - start_time) * 1000], the rational kept in lowest terms. *)
Definition ms_since (start_time now : Q) : Q :=
  Qred ((now - start_time) * 1000)%Q.

(** [BaseAgent.execute], as written. *)
Definition execute_wrapper a (input_data : value) context : M W AgentResult :=
  start_time <- time ;;
  c <- or_empty context ;;
  assign_context a c ;;;
  try_except
    (logger_info ("Agent " +:+ name a +:+ " starting execution") ;;;
     result <- wait_for a input_data ;;
     now <- time ;;
     let duration := ms_since start_time now in
     log_agent_action (name a) "execute" duration true None ;;;
     md <- _get_metadata a ;;
     ret (mkAgentResult (name a) true result None duration md))
    (fun e =>
       match e with
       | TimeoutError =>
           now <- time ;;
           let duration := ms_since start_time now in
           let error_msg :=
             "Agent execution timed out after " +:+ pretty (timeout a) +:+ "s" in
           log_agent_action (name a) "execute" duration false (Some error_msg) ;;;
           md <- _get_metadata a ;;
           ret (mkAgentResult (name a) false VNone (Some error_msg) duration md)
       | Error _ _ =>
           now <- time ;;
           let duration := ms_since start_time now in
           let error_msg := str_exn e in
           logger_error ("Agent " +:+ name a +:+ " execution failed: " +:+ error_msg) ;;;
           log_agent_action (name a) "execute" duration false (Some error_msg) ;;;
           md <- _get_metadata a ;;
           ret (mkAgentResult (name a) false VNone (Some error_msg) duration md)
       end).

(** [execute] with the ghost record of the call. *)
Definition execute a (input_data : value) context : M W AgentResult :=
  passed <- gets (passed_content context) ;;
  result <- execute_wrapper a input_data context ;;
  modify (fun s =>
    set_calls (calls s ++ [mkCall a input_data context passed result]) s) ;;;
  ret result.

(** [str] of an optional string, as an f-string prints it. *)
Definition str_opt (o : option string) : string :=
  match o with
  | Some m => m
  | None => "None"
  end.

(** *** AgentOrchestrator *)

Record AgentOrchestrator : Type := mkOrchestrator {
  o_name : string;
  agents : list (agent W)
}.

(** [AgentOrchestrator.add_agent] *)
Definition add_agent (o : AgentOrchestrator) a : AgentOrchestrator :=
  mkOrchestrator (o_name o) (agents o ++ [a]).

(** [{**self._context}]: a new dict object with the same contents. *)
Definition copy_dict (l : loc) : M W loc :=
  d <- read_dict l ;; new_dict d.

(** [agent_context["previous_results"] = [r.data for r in results if r.success]] *)
Definition previous_results (results : list AgentResult) : value :=
  VList (map data (List.filter success results)).

(** The body of the [for agent in self.agents] loop of
    [execute_sequential]; [shared] is the orchestrator's [self._context],
    [todo] the agents not yet reached. *)
Fixpoint sequential_loop (shared : loc) (todo : list (agent W))
    (results : list AgentResult) (current_input : value)
    : M W (list AgentResult) :=
  match todo with
  | [] => ret results
  | a :: rest =>
      agent_context <- copy_dict shared ;;
      (if truthy results then
         d <- read_dict agent_context ;;
         write_dict agent_context
           (dict_set d "previous_results" (previous_results results))
       else ret tt) ;;;
      result <- execute a current_input (Some agent_context) ;;
      let results := results ++ [result] in
      if negb (success result) then
        logger_error ("Agent " +:+ name a +:+ " failed: " +:+
                      str_opt (error result)) ;;;
        ret results
      else sequential_loop shared rest results (data result)
  end.

(** [AgentOrchestrator.execute_sequential]; the orchestrator's own
    [_context] attribute is written here and read only in the loop below,
    so it is the local [shared]. *)
Definition execute_sequential (o : AgentOrchestrator) (initial_input : value)
    context : M W (list AgentResult) :=
  shared <- or_empty context ;;
  sequential_loop shared (agents o) [] initial_input.

(** The pieces of [AgentOrchestrator.execute_map_reduce] that build its
    envelopes and the reducer's input; the function itself is in [Async]. *)

(** [sum(r.duration_ms for r in map_results)] *)
Definition sum_durations (rs : list AgentResult) : Q :=
  fold_left Qplus (map duration_ms rs) 0%Q.

(** [{r.agent_name: r.metadata for r in successful_results}] *)
Definition metadata_by_name (rs : list AgentResult) : dict :=
  fold_left (fun d r => dict_set d (agent_name r) (VDict (metadata r))) rs [].

Definition all_failed_envelope (map_results : list AgentResult) : AgentResult :=
  mkAgentResult "map_reduce" false VNone (Some "All map agents failed")
    (sum_durations map_results)
    [("failed_agents",
      VList (map (fun r => VStr (agent_name r))
               (List.filter (fun r => negb (success r)) map_results)))].

Definition reduce_input (successful_results : list AgentResult) : value :=
  VDict [("results", VList (map data successful_results));
         ("metadata", VDict (metadata_by_name successful_results))].

(** *** ChainableAgent *)

(** [ChainableAgent.then] *)
Definition then_ a (next : agent W) : M W (agent W) :=
  modify (fun s => set_next_agent (<[aref a := next]> (next_agent s)) s) ;;;
  ret next.

(** [getattr(current_agent, 'next_agent', None)] *)
Definition get_next_agent a : M W (option (agent W)) :=
  gets (fun s => next_agent s !! aref a).

(** The [while current_agent] loop of [execute_chain].  The loop may run
    for ever on a cyclic chain: [fuel] bounds the number of iterations and
    the result is [None] when it is used up. *)
Fixpoint chain_loop (fuel : nat) (current_agent : option (agent W))
    (results : list AgentResult) (current_input : value) context
    : M W (option (list AgentResult)) :=
  match current_agent with
  | None => ret (Some results)
  | Some a =>
      match fuel with
      | O => ret None
      | S fuel' =>
          result <- execute a current_input context ;;
          let results := results ++ [result] in
          if negb (success result) then ret (Some results)
          else
            next <- get_next_agent a ;;
            chain_loop fuel' next results (data result) context
      end
  end.

(** [ChainableAgent.execute_chain] *)
Definition execute_chain (fuel : nat) a (input_data : value) context
    : M W (option (list AgentResult)) :=
  chain_loop fuel (Some a) [] input_data context.

(** *** Summaries used in the statements *)

(** The dict object an execution binds to [self._context]. *)
Definition bound_loc context s : loc :=
  match context with
  | Some l => if truthy (default [] (dicts s !! l)) then l else length (dicts s)
  | None => length (dicts s)
  end.

(** The run of the core computation that [execute] starts in [s]. *)
Definition core_run a (input_data : value) context s : run W :=
  _execute a input_data (passed_content context s) (world s).

Definition timeout_msg a : string :=
  "Agent execution timed out after " +:+ pretty (timeout a) +:+ "s".

Definition metadata_of a (d : dict) : dict :=
  [("agent_id", VStr (agent_id a));
   ("context_keys", VList (map VStr (dict_keys d)))].

(** The envelope [execute] builds from a run started at clock [t0]. *)
Definition envelope a (t0 : Q) (r : run W) : AgentResult :=
  let md := metadata_of a (context_after r) in
  if overruns a r then
    mkAgentResult (name a) false VNone (Some (timeout_msg a))
      (ms_since t0 (t0 + inject_Z (timeout a))) md
  else
    match completion r with
    | inr v =>
        mkAgentResult (name a) true v None (ms_since t0 (t0 + elapsed r)) md
    | inl TimeoutError =>
        mkAgentResult (name a) false VNone (Some (timeout_msg a))
          (ms_since t0 (t0 + elapsed r)) md
    | inl (Error c m) =>
        mkAgentResult (name a) false VNone (Some m)
          (ms_since t0 (t0 + elapsed r)) md
    end.

(** The heap once [execute] has returned: a new empty dict when the passed
    context was [None] or empty, and the computation's writes in the bound
    dict. *)
Definition heap_after context s (r : run W) : list dict :=
  <[bound_loc context s := context_after r]>
    (if decide (bound_loc context s = length (dicts s))
     then dicts s ++ [[]] else dicts s).

Definition clock_after a s (r : run W) : Q :=
  (clock s + (if overruns a r then inject_Z (timeout a) else elapsed r))%Q.

Definition wait_for_outcome a (r : run W) : exn + value :=
  if overruns a r then inl TimeoutError else completion r.

(** What the caller of [asyncio.wait_for] gets from a run: the returned
    value when the computation completed normally within the deadline. *)
Definition completed_in_time a (r : run W) : option value :=
  if overruns a r then None
  else match completion r with
       | inr v => Some v
       | inl _ => None
       end.

(** The context [execute_sequential] passes to the agent it calls once
    [results] have been produced, the shared context holding [d0]. *)
Definition sequential_context (d0 : dict) (results : list AgentResult) : dict :=
  if truthy results then dict_set d0 "previous_results" (previous_results results)
  else d0.

(** A chain: [a] is linked to the agents of [rest], one after the other,
    and the last one has no successor. *)
Fixpoint linked s a (rest : list (agent W)) : Prop :=
  match rest with
  | [] => next_agent s !! aref a = None
  | b :: rest' => next_agent s !! aref a = Some b /\ linked s b rest'
  end.

(** A core computation that does not depend on the agent's context. *)
Definition context_free a : Prop :=
  forall (input_data : value) (c1 c2 : dict) (w : W),
    completion (_execute a input_data c1 w) = completion (_execute a input_data c2 w) /\
    elapsed (_execute a input_data c1 w) = elapsed (_execute a input_data c2 w) /\
    world_after (_execute a input_data c1 w) = world_after (_execute a input_data c2 w).

(** An envelope without the [context_keys] of its metadata. *)
Definition envelope_core (e : AgentResult)
    : string * bool * value * option string * Q * option value :=
  (agent_name e, success e, data e, error e, duration_ms e,
   dict_get (metadata e) "agent_id").

End Base.

(** ** [backend/api/research.py] *)

Section Research.

Context {W : Type}.

Implicit Types (s : state W).

(** [ResearchRequest] *)
Record ResearchRequest : Type := mkRequest {
  query : string;
  output_format : string;
  include_sources : bool;
  max_sources : Z;
  enable_validation : bool;
  stream_response : bool
}.

(** [ResearchStatus] *)
Record ResearchStatus : Type := mkStatus {
  rs_id : string;
  rs_status : string;
  rs_progress : Z;
  rs_message : string;
  rs_created_at : Q;
  rs_updated_at : Q
}.

(** The six agents [execute_research] constructs, in the order of their
    construction.  Their constructors draw a random identifier, so the
    constructed objects are taken as given. *)
Record research_agents : Type := mkResearchAgents {
  query_analyzer : agent W;
  web_search : agent W;
  content_extractor : agent W;
  insight_generator : agent W;
  report_formatter : agent W;
  validator : agent W
}.

(** *** Python operations on values that [research.py] applies *)

Definition type_name (v : value) : string :=
  match v with
  | VNone => "NoneType"
  | VBool _ => "bool"
  | VInt _ => "int"
  | VFloat _ => "float"
  | VStr _ => "str"
  | VDatetime _ => "datetime.datetime"
  | VList _ => "list"
  | VDict _ => "dict"
  end.

(** Number of elements [x[:n]] keeps of a sequence of length [len]. *)
Definition slice_stop (len : nat) (n : Z) : nat :=
  if (0 <=? n)%Z then Z.to_nat n else Z.to_nat (Z.of_nat len + n).

(** [v[:n]] *)
Definition py_slice_to (v : value) (n : Z) : M W value :=
  match v with
  | VList l => ret (VList (take (slice_stop (length l) n) l))
  | VStr x => ret (VStr (String.substring 0 (slice_stop (String.length x) n) x))
  | VDict _ => raise (Error "TypeError" "unhashable type: 'slice'")
  | _ => raise (Error "TypeError"
                  ("'" +:+ type_name v +:+ "' object is not subscriptable"))
  end.

(** [len(v)] *)
Definition py_len (v : value) : M W Z :=
  match v with
  | VList l => ret (Z.of_nat (length l))
  | VStr x => ret (Z.of_nat (String.length x))
  | VDict d => ret (Z.of_nat (length d))
  | _ => raise (Error "TypeError"
                  ("object of type '" +:+ type_name v +:+ "' has no len()"))
  end.

(** [v.get(key, dflt)] *)
Definition py_get (v : value) (key : string) (dflt : value) : M W value :=
  match v with
  | VDict d => ret (default dflt (dict_get d key))
  | _ => raise (Error "AttributeError"
                  ("'" +:+ type_name v +:+ "' object has no attribute 'get'"))
  end.

(** *** The status store *)

(** [update_research_status] *)
Definition update_research_status (research_id status : string)
    (progress : Z) (message : string) : M W unit :=
  storage <- gets research_storage ;;
  match storage !! research_id with
  | Some entry =>
      now <- time ;;
      modify (fun s =>
        set_research_storage
          (<[research_id :=
               <["updated_at" := VDatetime now]>
                 (<["message" := VStr message]>
                    (<["progress" := VInt progress]>
                       (<["status" := VStr status]> entry)))]> storage) s) ;;;
      modify (fun s =>
        set_writes (writes s ++ [mkWrite research_id status progress message]) s)
  | None => ret tt
  end.

(** The names bound in the module namespace of [research.py]: what it
    imports and what it defines. *)
Definition research_globals : list string :=
  ["asyncio"; "datetime"; "Any"; "Dict"; "Optional"; "uuid4";
   "APIRouter"; "Depends"; "BackgroundTasks"; "Query"; "StreamingResponse";
   "BaseModel"; "Field";
   "QueryAnalyzerAgent"; "WebSearchAgent"; "ContentExtractorAgent";
   "InsightGeneratorAgent"; "ReportFormatterAgent"; "ValidationAgent";
   "AgentOrchestrator"; "get_logger"; "log_research_query";
   "ResearchError"; "ValidationError"; "get_current_user"; "rate_limit";
   "logger"; "router"; "ResearchRequest"; "ResearchResponse";
   "ResearchStatus"; "research_storage"; "create_research_query";
   "execute_research"; "update_research_status"; "stream_research";
   "get_research_status"; "get_research_history"].

(** Evaluation of a global name: an unbound one raises [NameError]. *)
Definition load_global (n : string) : M W unit :=
  if bool_decide (n ∈ research_globals) then ret tt
  else raise (Error "NameError" ("name '" +:+ n +:+ "' is not defined")).

(** [raise ResourceNotFoundError(resource, identifier)], the class being that
    of [backend/core/exceptions.py]: its message is [resource] followed by
    [" not found"]. *)
Definition raise_ResourceNotFoundError {A : Type} (resource : string) : M W A :=
  load_global "ResourceNotFoundError" ;;;
  raise (Error "ResourceNotFoundError" (resource +:+ " not found")).

(** [data[key]] on a store entry *)
Definition entry_item (entry : gmap string value) (key : string) : M W value :=
  match entry !! key with
  | Some v => ret v
  | None => raise (Error "KeyError" ("'" +:+ key +:+ "'"))
  end.

(** Validation of the fields of [ResearchStatus]; a value of another type
    than the declared one is rejected (the conversions the validation
    library would attempt are left out). *)
Definition as_str (v : value) : M W string :=
  match v with
  | VStr x => ret x
  | _ => raise (Error "ValidationError" "Input should be a valid string")
  end.

Definition as_int (v : value) : M W Z :=
  match v with
  | VInt n => ret n
  | _ => raise (Error "ValidationError" "Input should be a valid integer")
  end.

Definition as_datetime (v : value) : M W Q :=
  match v with
  | VDatetime t => ret t
  | _ => raise (Error "ValidationError" "Input should be a valid datetime")
  end.

(** [get_research_status] *)
Definition get_research_status (research_id : string) : M W ResearchStatus :=
  storage <- gets research_storage ;;
  match storage !! research_id with
  | None => raise_ResourceNotFoundError "Research query"
  | Some entry =>
      v_id <- entry_item entry "id" ;;
      v_status <- entry_item entry "status" ;;
      let v_progress := default (VInt 0) (entry !! "progress") in
      let v_message := default (VStr EmptyString) (entry !! "message") in
      v_created <- entry_item entry "created_at" ;;
      v_updated <- entry_item entry "updated_at" ;;
      f_id <- as_str v_id ;;
      f_status <- as_str v_status ;;
      f_progress <- as_int v_progress ;;
      f_message <- as_str v_message ;;
      f_created <- as_datetime v_created ;;
      f_updated <- as_datetime v_updated ;;
      ret (mkStatus f_id f_status f_progress f_message f_created f_updated)
  end.

(** *** The workflow driver *)

Definition raise_ResearchError {A : Type} (message : string) : M W A :=
  raise (Error "ResearchError" message).

(** [if not result.success: raise ResearchError(f"<what> failed: {result.error}")] *)
Definition check_success (what : string) (result : AgentResult) : M W unit :=
  if negb (success result) then
    raise_ResearchError (what +:+ " failed: " +:+ str_opt (error result))
  else ret tt.

Definition agents_used (validation : bool) : value :=
  VList (map VStr (["QueryAnalyzer"; "WebSearch"; "ContentExtractor";
                    "InsightGenerator"; "ReportFormatter"]
                   ++ (if validation then ["Validation"] else []))).

(** [execute_research] *)
Definition execute_research (ags : research_agents) (research_id : string)
    (request : ResearchRequest) : M W value :=
  try_except
    (update_research_status research_id "analyzing" 10 "Analyzing query..." ;;;
     analysis_result <- execute (query_analyzer ags) (VStr (query request)) None ;;
     check_success "Query analysis" analysis_result ;;;
     update_research_status research_id "searching" 25
       "Searching for information..." ;;;
     search_result <- execute (web_search ags) (data analysis_result) None ;;
     check_success "Web search" search_result ;;;
     update_research_status research_id "extracting" 40 "Extracting content..." ;;;
     urls <- py_slice_to (data search_result) (max_sources request) ;;
     extraction_result <- execute (content_extractor ags) urls None ;;
     check_success "Content extraction" extraction_result ;;;
     update_research_status research_id "analyzing" 60 "Generating insights..." ;;;
     insight_result <-
       execute (insight_generator ags)
         (VDict [("content", data extraction_result);
                 ("analysis_params", data analysis_result)]) None ;;
     check_success "Insight generation" insight_result ;;;
     update_research_status research_id "formatting" 80 "Formatting report..." ;;;
     format_result <-
       execute (report_formatter ags)
         (VDict [("insights", data insight_result);
                 ("metadata",
                  VDict [("query", VStr (query request));
                         ("sources",
                          if include_sources request
                          then data extraction_result else VList [])])]) None ;;
     check_success "Report formatting" format_result ;;;
     validated <-
       (if enable_validation request then
          update_research_status research_id "validating" 95
            "Validating results..." ;;;
          validation_result <-
            execute (validator ags)
              (VDict [("report", data format_result);
                      ("sources", data extraction_result)]) None ;;
          if success validation_result then
            final_report <-
              py_get (data validation_result) "report" (data format_result) ;;
            ret (final_report, data validation_result)
          else ret (data format_result, VDict [])
        else ret (data format_result, VDict [])) ;;
     let final_report := fst validated in
     let validation_data := snd validated in
     update_research_status research_id "completed" 100 "Research completed" ;;;
     sources_found <- py_len (data search_result) ;;
     sources_analyzed <- py_len (data extraction_result) ;;
     ret (VDict [("success", VBool true);
                 ("report", final_report);
                 ("metadata",
                  VDict [("analysis", data analysis_result);
                         ("sources_found", VInt sources_found);
                         ("sources_analyzed", VInt sources_analyzed);
                         ("validation", validation_data);
                         ("agents_used",
                          agents_used (enable_validation request))])]))
    (fun e =>
       logger_error ("Research execution failed: " +:+ str_exn e) ;;;
       update_research_status research_id "failed" 0 (str_exn e) ;;;
       ret (VDict [("success", VBool false);
                   ("report", VStr EmptyString);
                   ("metadata", VDict []);
                   ("error", VStr (str_exn e))])).

(** *** Summaries used in the statements *)

Definition status_progress (w : status_write) : string * Z :=
  (w_status w, w_progress w).

(** The statuses the driver writes in a run that succeeds. *)
Definition written_statuses (validation : bool) : list (string * Z) :=
  [("analyzing", 10%Z); ("searching", 25%Z); ("extracting", 40%Z);
   ("analyzing", 60%Z); ("formatting", 80%Z)]
  ++ (if validation then [("validating", 95%Z)] else [])
  ++ [("completed", 100%Z)].

(** The statuses the specification lists for a successful run (C7). *)
Definition listed_statuses (validation : bool) : list (string * Z) :=
  [("analyzing", 10%Z); ("searching", 25%Z); ("extracting", 40%Z);
   ("synthesizing", 60%Z); ("formatting", 80%Z)]
  ++ (if validation then [("validating", 95%Z)] else [])
  ++ [("completed", 100%Z)].

(** [result["success"]] of what [execute_research] returns *)
Definition succeeded (v : value) : bool :=
  match v with
  | VDict d => match dict_get d "success" with
               | Some (VBool true) => true
               | _ => false
               end
  | _ => false
  end.

(** The four fields [update_research_status] writes. *)
Definition mutable_fields : list string :=
  ["status"; "progress"; "message"; "updated_at"].

(** The record of [research_id] exists and [ws] is what has been written
    since [s0]. *)
Definition tracked (research_id : string) (ws : list status_write)
    (s0 s : state W) : Prop :=
  is_Some (research_storage s !! research_id) /\ writes s = writes s0 ++ ws.

End Research.

(** ** Statements of the specification that the code does not satisfy, as
    the specification words them *)

Section Stated.

Context {W : Type}.

Implicit Types (s : state W) (a : agent W) (context : option loc).

(** C3 as stated: the context passed to every call of a sequential run,
    the first included, has a [previous_results] entry, the list of the data
    of the prior successful envelopes. *)
Definition previous_results_in_every_call (o : AgentOrchestrator (W:=W))
    (input : value) context s : Prop :=
  exists rs s' cs,
    execute_sequential o input context s = (inr rs, s') /\
    calls s' = calls s ++ cs /\
    forall i c, cs !! i = Some c ->
      dict_get (c_passed c) "previous_results"
      = Some (VList (map data (List.filter success (take i rs)))).

(** C6 as stated: the chain and the orchestrator registered with the agents
    of the chain produce the same list of envelopes. *)
Definition chain_equals_sequential a (rest : list (agent W)) (fuel : nat)
    (input : value) context s : Prop :=
  exists rs s1 s2,
    execute_chain fuel a input context s = (inr (Some rs), s1) /\
    execute_sequential (mkOrchestrator "orchestrator" (a :: rest))
      input context s = (inr rs, s2).

(** C7 as stated: a successful run writes the listed statuses, in order. *)
Definition passes_listed_statuses (ags : research_agents (W:=W))
    (research_id : string) (request : ResearchRequest) s : Prop :=
  forall v s',
    execute_research ags research_id request s = (inr v, s') ->
    succeeded v = true ->
    exists new,
      writes s' = writes s ++ new /\
      map status_progress new = listed_statuses (enable_validation request).


End Stated.

(** ** Concrete agents and states for the examples; the world is a counter
    of the computations run. *)

Definition s0 : state nat :=
  mkState [] ∅ ∅ 0%nat 0%Q [] ∅ [] [].

(** input times 2, in 50 ms *)
Definition double_run (v : value) (c : dict) (w : nat) : run nat :=
  mkRun (match v with
         | VInt n => inr (VInt (2 * n))
         | _ => inl (Error "TypeError" "unsupported operand")
         end) (50 # 1000) c (S w).

Definition double : agent nat :=
  mkAgent "double" "double_3f2a91c0" 30 0 double_run.

(** input plus 1, in 20 ms *)
Definition increment_run (v : value) (c : dict) (w : nat) : run nat :=
  mkRun (match v with
         | VInt n => inr (VInt (n + 1))
         | _ => inl (Error "TypeError" "unsupported operand")
         end) (20 # 1000) c (S w).

Definition increment : agent nat :=
  mkAgent "increment" "increment_0b64c7d2" 30 1 increment_run.

(** always raises, after 10 ms *)
Definition failing_run (v : value) (c : dict) (w : nat) : run nat :=
  mkRun (inl (Error "ValueError" "boom")) (10 # 1000) c (S w).

Definition failing : agent nat :=
  mkAgent "fail" "fail_77aa01be" 30 2 failing_run.

(** returns its input after [self.set_context("seen", True)] *)
Definition marking_run (v : value) (c : dict) (w : nat) : run nat :=
  mkRun (inr v) (10 # 1000) (dict_set c "seen" (VBool true)) (S w).

Definition marking : agent nat :=
  mkAgent "mark" "mark_5d0c2e19" 30 3 marking_run.

(** the sum of the integers of a list of values *)
Fixpoint sum_ints (l : list value) : Z :=
  match l with
  | VInt n :: l' => n + sum_ints l'
  | _ :: l' => sum_ints l'
  | [] => 0
  end.

Definition double_then_fail : AgentOrchestrator :=
  add_agent (add_agent (mkOrchestrator "orchestrator" []) double) failing.

Definition double_then_increment : AgentOrchestrator :=
  add_agent (add_agent (mkOrchestrator "orchestrator" []) double) increment.

(** [double.then(increment)] *)
Definition s_linked : state nat := snd (then_ double increment s0).

(** Agents for the research workflow: each returns a fixed value. *)
Definition constant_run (out : value) (v : value) (c : dict) (w : nat)
    : run nat :=
  mkRun (inr out) (100 # 1000) c (S w).

Definition demo_sources : value :=
  VList [VDict [("url", VStr "https://example.com/a"); ("title", VStr "A")];
         VDict [("url", VStr "https://example.com/b"); ("title", VStr "B")]].

Definition demo_agents : research_agents :=
  mkResearchAgents
    (mkAgent "QueryAnalyzer" "QueryAnalyzer_00000001" 10 10
       (constant_run (VDict [("topic", VStr "quantum computing")])))
    (mkAgent "WebSearch" "WebSearch_00000002" 30 11
       (constant_run demo_sources))
    (mkAgent "ContentExtractor" "ContentExtractor_00000003" 60 12
       (constant_run demo_sources))
    (mkAgent "InsightGenerator" "InsightGenerator_00000004" 45 13
       (constant_run (VDict [("raw_analysis", VStr "analysis")])))
    (mkAgent "ReportFormatter" "ReportFormatter_00000005" 20 14
       (constant_run (VStr "## Detailed Analysis")))
    (mkAgent "Validation" "Validation_00000006" 30 15
       (constant_run (VDict [("confidence_score", VInt 85);
                             ("report", VStr "## Detailed Analysis")]))).

Definition demo_request : ResearchRequest :=
  mkRequest "latest developments in quantum computing" "markdown" true 5
            true false.

(** The entry [create_research_query] stores when a workflow begins. *)
Definition initial_entry (research_id q : string) (now : Q)
    : gmap string value :=
  <["user_id" := VStr "anonymous"]>
    (<["updated_at" := VDatetime now]>
       (<["created_at" := VDatetime now]>
          (<["query" := VStr q]>
             (<["progress" := VInt 0]>
                (<["status" := VStr "processing"]>
                   (<["id" := VStr research_id]> ∅)))))).

Definition s_research : state nat :=
  set_research_storage
    (<["r1" := initial_entry "r1" (query demo_request) 0%Q]> ∅) s0.

(** ** Further summaries used in the statements *)

Section MoreSummaries.

Context {W : Type}.

Implicit Types (s : state W) (a : agent W) (context : option loc).

(** A record written by [log_agent_action]. *)
Definition is_action (r : log_record) : bool :=
  match r with
  | LogAction _ _ _ _ _ => true
  | _ => false
  end.

(** The envelopes of [rs] produced under the agent name [n]. *)
Definition named (n : string) (rs : list AgentResult) : list AgentResult :=
  List.filter (fun r => String.eqb (agent_name r) n) rs.

(** A set of agents closed under [next_agent], each of which has a
    successor and a core computation that always returns in time: from any
    of them the chain never ends. *)
Definition endless s (cyc : agent W -> Prop) : Prop :=
  forall a, cyc a ->
    (forall (input : value) (c : dict) (w : W),
        is_Some (completed_in_time a (_execute a input c w))) /\
    exists b, next_agent s !! aref a = Some b /\ cyc b.

(** Each call of [cs] but the last is followed by the call of the
    successor, in the links [next], of its agent. *)
Fixpoint follows_links (next : gmap nat (agent W)) (cs : list (call W))
    : Prop :=
  match cs with
  | c :: ((c' :: _) as rest) =>
      next !! aref (c_agent c) = Some (c_agent c') /\
      follows_links next rest
  | _ => True
  end.

End MoreSummaries.

Section MoreResearch.

Context {W : Type}.

Implicit Types (s : state W).

(** [m] preserves [P], whether it returns or raises. *)
Definition keeps (P : state W -> Prop) {A : Type} (m : M W A) : Prop :=
  forall s r s', P s -> m s = (r, s') -> P s'.

(** [P] looks at the status store and at the record of its writes only. *)
Definition tracker_only (P : state W -> Prop) : Prop :=
  forall s s',
    research_storage s' = research_storage s -> writes s' = writes s ->
    P s -> P s'.



(** The record of [research_id] reads [status], [progress], [message]. *)
Definition polled (research_id i : string) (t : Q) (status : string)
    (progress : Z) (message : string) s : Prop :=
  exists entry u,
    research_storage s !! research_id = Some entry /\
    entry !! "id" = Some (VStr i) /\
    entry !! "created_at" = Some (VDatetime t) /\
    entry !! "status" = Some (VStr status) /\
    entry !! "progress" = Some (VInt progress) /\
    entry !! "message" = Some (VStr message) /\
    entry !! "updated_at" = Some (VDatetime u).




End MoreResearch.

(** ** [backend/agents/research_agents.py]: [WebSearchAgent] *)

Section WebSearch.

Context {W : Type}.

(** A [Dict[str, str]], one search result. *)
Abbreviation sdict := (list (string * string)).

(** [result.get(key)]: [None] when the key is absent. *)
Fixpoint sdict_get (d : sdict) (key : string) : option string :=
  match d with
  | [] => None
  | (k, v) :: d' => if String.eqb k key then Some v else sdict_get d' key
  end.

Definition sdict_value (d : sdict) : value :=
  VDict (map (fun kv => (fst kv, VStr (snd kv))) d).

(** The double quote character, as a string. *)
Definition dquote : string := String (Ascii.ascii_of_nat 34) EmptyString.

(** [v.get(key, dflt)] *)
Definition value_get (v : value) (key : string) (dflt : value) : exn + value :=
  match v with
  | VDict d => inr (default dflt (dict_get d key))
  | _ => inl (Error "AttributeError"
                ("'" +:+ type_name v +:+ "' object has no attribute 'get'"))
  end.

(** [[topic] + questions[:3]] without its head: the slice must be a list
    for the concatenation to succeed. *)
Definition first_three (questions : value) : exn + list value :=
  match questions with
  | VList l => inr (take 3 l)
  | VStr _ =>
      inl (Error "TypeError"
             ("can only concatenate list (not " +:+ dquote +:+ "str" +:+
              dquote +:+ ") to list"))
  | VDict _ => inl (Error "TypeError" "unhashable type: 'slice'")
  | _ => inl (Error "TypeError"
                ("'" +:+ type_name questions +:+ "' object is not subscriptable"))
  end.

(** What one awaited [self.firecrawl.search(query, max_results)] amounts
    to: the results or the exception, after how long, and the world it
    leaves. *)
Record search_reply : Type := mkReply {
  found : exn + list sdict;
  took : Q;
  world_then : W
}.

Section Run.

(** The search client, and the effect on the world of the warning the
    agent logs when a search fails. *)
Variable search : value -> Z -> W -> search_reply.
Variable warning : value -> exn -> W -> W.

(** The loop over [search_queries]: a search that raises is logged and
    skipped. *)
Fixpoint run_searches (queries : list value) (all_results : list sdict)
    (t : Q) (w : W) : list sdict * Q * W :=
  match queries with
  | [] => (all_results, t, w)
  | q :: rest =>
      let reply := search q 5 w in
      match found reply with
      | inr results =>
          run_searches rest (all_results ++ results) (t + took reply)%Q
            (world_then reply)
      | inl e =>
          run_searches rest all_results (t + took reply)%Q
            (warning q e (world_then reply))
      end
  end.

(** The loop that removes duplicates by URL; [seen_urls] is the set of the
    URLs met so far. *)
Fixpoint unique_by_url (all_results : list sdict)
    (seen_urls : list (option string)) : list sdict :=
  match all_results with
  | [] => []
  | result :: rest =>
      if bool_decide (sdict_get result "url" ∈ seen_urls)
      then unique_by_url rest seen_urls
      else result :: unique_by_url rest (sdict_get result "url" :: seen_urls)
  end.

(** [WebSearchAgent._execute], as the coroutine runs when it is left to
    complete: [elapsed] is the time the searches take together. *)
Definition web_search_run (search_params : value) (c : dict) (w : W)
    : run W :=
  match value_get search_params "topic" (VStr EmptyString) with
  | inl e => mkRun (inl e) 0 c w
  | inr topic =>
      match value_get search_params "questions" (VList []) with
      | inl e => mkRun (inl e) 0 c w
      | inr questions =>
          match first_three questions with
          | inl e => mkRun (inl e) 0 c w
          | inr qs =>
              let '(all_results, t, w') :=
                run_searches (topic :: qs) [] 0 w in
              mkRun (inr (VList (map sdict_value
                                   (take 10 (unique_by_url all_results [])))))
                    t c w'
          end
      end
  end.


End Run.

End WebSearch.

(** A search client for the examples: two results per query, one of them
    the same for every query; it fails on the empty query. *)
Definition demo_search (q : value) (n : Z) (w : nat) : search_reply (W:=nat) :=
  match q with
  | VStr EmptyString =>
      mkReply (inl (Error "WebScrapingError" "Search failed")) (1 # 10) (S w)
  | VStr x =>
      mkReply (inr [[("url", "https://example.com/" +:+ x); ("title", x)];
                    [("url", "https://example.com/common"); ("title", x)]])
              (1 # 10) (S w)
  | _ => mkReply (inl (Error "TypeError" "query")) (1 # 10) (S w)
  end.

Definition demo_warning (q : value) (e : exn) (w : nat) : nat := w.

Definition demo_params : value :=
  VDict [("topic", VStr "rust");
         ("questions", VList [VStr "borrowing"; VStr EmptyString;
                              VStr "lifetimes"; VStr "macros"])].

(** ** Further states for the examples *)

(** A heap with one dict, the context of a caller, to which [mark] is
    bound. *)
Definition s_ctx : state nat :=
  mkState [[("user", VStr "u1")]] {[ 3%nat := 0%nat ]} ∅ 0%nat 0%Q [] ∅ [] [].

(** [mark.then(mark)]: a chain that is a cycle. *)
Definition s_cycle : state nat := snd (then_ marking marking s0).

(** [mark.then(double)], with the caller's dict in the heap. *)
Definition s_mark_chain : state nat := snd (then_ marking double s_ctx).

(** The chain [double -> increment] on 5. *)
Definition chain_demo : (exn + option (list AgentResult)) * state nat :=
  execute_chain 2 double (VInt 5) None s_linked.

Definition chain_demo_results : list AgentResult :=
  match fst chain_demo with
  | inr (Some rs) => rs
  | _ => []
  end.

(** * The asynchronous model

    The model above takes an agent's computation as one atomic run that
    raises only instances of [Exception], that is cancelled whenever it
    lasts as long as the timeout, and whose context holds values that
    nobody else can change.  This second model of [BaseAgent.execute], of
    [AgentOrchestrator.execute_parallel] and of
    [AgentOrchestrator.execute_map_reduce] lifts the four restrictions.

    - A computation may end with an exception that is not an instance of
      [Exception]: [asyncio.CancelledError], [KeyboardInterrupt],
      [SystemExit].  The handlers of [execute] let these through.
    - A computation is a coroutine: stretches of code that run without
      interruption, separated by suspension points at which it waits.
      [asyncio.wait_for] can cancel it only while it is suspended, and
      does not start it at all when the timeout is not positive.  A point
      at which the coroutine hands control back without waiting
      ([asyncio.sleep(0)]) is not a suspension point of the model, and
      when a wake-up and the timeout fall at the same instant the timeout
      is taken to come first.
    - The values of a context are values or references to mutable objects
      (dicts and lists) of a heap: [{**self._context}] copies the bindings,
      not the objects they refer to.  Inputs and returned data remain
      values.
    - [asyncio.gather] runs every call of [execute] in a task of its own.
      A task goes through three steps: the code of [execute] before the
      [await], the awaited computation, the code after the [await].  The
      order in which the steps of the different tasks follow one another is
      a parameter; each awaited computation takes effect at once, as if
      alone, and the clock is advanced by the time it took. *)

Module Async.

(** ** Objects *)

Inductive cvalue : Type :=
| Val (v : value)
| Ref (l : loc).

Inductive object : Type :=
| ODict (d : list (string * cvalue))
| OList (items : list cvalue).

(** The bindings of a dict object, in insertion order. *)
Abbreviation bindings := (list (string * cvalue)).

Fixpoint binding (d : bindings) (k : string) : option cvalue :=
  match d with
  | [] => None
  | (k', v) :: d' => if String.eqb k' k then Some v else binding d' k
  end.

(** [d[k] = v] *)
Fixpoint bind_key (d : bindings) (k : string) (v : cvalue) : bindings :=
  match d with
  | [] => [(k, v)]
  | (k', v') :: d' =>
      if String.eqb k' k then (k', v) :: d' else (k', v') :: bind_key d' k v
  end.

Definition keys (d : bindings) : list string := map fst d.

Definition dict_at (h : list object) (l : loc) : bindings :=
  match h !! l with
  | Some (ODict d) => d
  | _ => []
  end.

Definition list_at (h : list object) (l : loc) : list cvalue :=
  match h !! l with
  | Some (OList items) => items
  | _ => []
  end.

(** What a value of a context reads as, the objects it refers to
    included, down to [depth] references. *)
Fixpoint deep (depth : nat) (h : list object) (c : cvalue) : value :=
  match c with
  | Val v => v
  | Ref l =>
      match depth with
      | O => VNone
      | S n =>
          match h !! l with
          | Some (ODict d) => VDict (map (fun kv => (fst kv, deep n h (snd kv))) d)
          | Some (OList items) => VList (map (deep n h) items)
          | None => VNone
          end
      end
  end.

(** What a dict object reads as. *)
Definition content (h : list object) (l : loc) : dict :=
  map (fun kv => (fst kv, deep (length h) h (snd kv))) (dict_at h l).

(** ** What a coroutine can raise: an instance of [Exception],
    [asyncio.CancelledError], or another exception that is not an instance
    of [Exception]. *)

Inductive raised : Type :=
| Exc (e : exn)
| CancelledError
| BaseExc (cls : string) (msg : string).

(** A positive duration, in seconds. *)
Definition delay : Type := (positive * positive)%type.

Definition secs (d : delay) : Q := Zpos (fst d) # snd d.

Section Model.

Context {W : Type}.

(** What a coroutine amounts to once it has ended. *)
Record run : Type := mkRun {
  completion : raised + value;   (* raises, or returns *)
  elapsed : Q;                   (* seconds until it does *)
  heap_after : list object;
  world_after : W
}.

(** A coroutine: from the dict bound to [self._context], the heap and the
    world it finds, it runs for [busy] seconds without interruption and
    then either ends, or waits at an [await] for [wait] seconds, after
    which it goes on as [resume], unless it is cancelled while it waits,
    in which case [CancelledError] is raised at the [await] and it goes on
    as [cancelled]. *)
Inductive coro : Type :=
| Coro (body : loc -> list object -> W -> step)
with step : Type :=
| Done (busy : Q) (h : list object) (w : W) (r : raised + value)
| Await (busy : Q) (h : list object) (w : W) (wait : delay)
        (resume cancelled : coro).

(** Induction on a coroutine and on its continuations. *)
Scheme coro_step_ind := Induction for coro Sort Prop
  with step_coro_ind := Induction for step Sort Prop.

(** An agent object. *)
Record agent : Type := mkAgent {
  name : string;
  agent_id : string;          (* [self.id] *)
  timeout : Z;
  aref : nat;
  _execute : value -> coro
}.

(** One call of [execute], as the ghost log keeps it. *)
Record call : Type := mkCall {
  c_agent : agent;
  c_input : value;
  c_context : option loc;     (* the [context] argument *)
  c_passed : bindings;        (* its bindings at the call; [] for None *)
  c_result : AgentResult
}.

(** What an awaited computation found in its context when it started
    (ghost). *)
Record view : Type := mkView {
  v_agent : agent;
  v_context : loc;
  v_content : dict
}.

Record state : Type := mkState {
  heap : list object;
  agent_context : gmap nat loc;               (* [BaseAgent._context] *)
  world : W;
  clock : Q;                                  (* wall clock, seconds *)
  log : list log_record;
  calls : list call;                          (* ghost *)
  views : list view                           (* ghost *)
}.

Definition set_heap (x : list object) (s : state) : state :=
  mkState x (agent_context s) (world s) (clock s) (log s) (calls s) (views s).
Definition set_agent_context (x : gmap nat loc) (s : state) : state :=
  mkState (heap s) x (world s) (clock s) (log s) (calls s) (views s).
Definition set_world (x : W) (s : state) : state :=
  mkState (heap s) (agent_context s) x (clock s) (log s) (calls s) (views s).
Definition set_clock (x : Q) (s : state) : state :=
  mkState (heap s) (agent_context s) (world s) x (log s) (calls s) (views s).
Definition set_log (x : list log_record) (s : state) : state :=
  mkState (heap s) (agent_context s) (world s) (clock s) x (calls s) (views s).
Definition set_calls (x : list call) (s : state) : state :=
  mkState (heap s) (agent_context s) (world s) (clock s) (log s) x (views s).
Definition set_views (x : list view) (s : state) : state :=
  mkState (heap s) (agent_context s) (world s) (clock s) (log s) (calls s) x.

(** ** The monad *)

Definition G (A : Type) : Type := state -> (raised + A) * state.

Definition ret {A : Type} (x : A) : G A := fun s => (inr x, s).

Definition bind {A B : Type} (m : G A) (k : A -> G B) : G B :=
  fun s =>
    match m s with
    | (inl e, s') => (inl e, s')
    | (inr x, s') => k x s'
    end.

Definition raise {A : Type} (e : raised) : G A := fun s => (inl e, s).

(** [try: m] followed by [except] clauses: [h e] is the body of the first
    clause that matches [e], and is [None] when no clause does, in which
    case [e] goes on to the caller. *)
Definition try_except {A : Type} (m : G A) (h : raised -> option (G A)) : G A :=
  fun s =>
    match m s with
    | (inl e, s') =>
        match h e with
        | Some handler => handler s'
        | None => (inl e, s')
        end
    | (inr x, s') => (inr x, s')
    end.

(** What an [await] gives to the code that resumes after it. *)
Definition attempt {A : Type} (m : G A) : G (raised + A) :=
  fun s => (inr (fst (m s)), snd (m s)).

Definition gets {A : Type} (f : state -> A) : G A := fun s => (inr (f s), s).
Definition modify (f : state -> state) : G unit := fun s => (inr tt, f s).

End Model.

Arguments run : clear implicits.
Arguments coro : clear implicits.
Arguments step : clear implicits.
Arguments agent : clear implicits.
Arguments call : clear implicits.
Arguments view : clear implicits.
Arguments state : clear implicits.
Arguments G : clear implicits.

Declare Scope async_scope.
Delimit Scope async_scope with async.
Notation "x <- m ;; k" := (bind m (fun x => k))
  (at level 100, m at next level, right associativity) : async_scope.
Notation "m ;;; k" := (bind m (fun _ => k))
  (at level 100, right associativity) : async_scope.
Open Scope async_scope.

(** ** [backend/agents/base.py]: [BaseAgent] *)

Section Base.

Context {W : Type}.

Implicit Types (s : state W) (a : agent W) (context : option loc).

Definition time : G W Q := gets clock.

(** Allocation of a dict object with the bindings [d]. *)
Definition new_dict (d : bindings) : G W loc :=
  fun s => (inr (length (heap s)), set_heap (heap s ++ [ODict d]) s).

Definition read_dict (l : loc) : G W bindings :=
  gets (fun s => dict_at (heap s) l).

(** [context or {}] *)
Definition or_empty context : G W loc :=
  match context with
  | None => new_dict []
  | Some l => d <- read_dict l ;; if truthy d then ret l else new_dict []
  end.

(** Bindings of an optional context argument. *)
Definition passed_content context s : bindings :=
  match context with
  | None => []
  | Some l => dict_at (heap s) l
  end.

Definition logger_info (msg : string) : G W unit :=
  modify (fun s => set_log (log s ++ [LogInfo msg]) s).

Definition logger_error (msg : string) : G W unit :=
  modify (fun s => set_log (log s ++ [LogError msg]) s).

Definition log_agent_action (agent action : string) (duration : Q)
    (ok : bool) (err : option string) : G W unit :=
  modify (fun s => set_log (log s ++ [LogAction agent action duration ok err]) s).

(** Reading [self._context]. *)
Definition self_context a : G W loc :=
  fun s =>
    match agent_context s !! aref a with
    | Some l => (inr l, s)
    | None => (inl (Exc (Error "AttributeError" "_context")), s)
    end.

(** [self._context = l] *)
Definition assign_context a (l : loc) : G W unit :=
  modify (fun s => set_agent_context (<[aref a := l]> (agent_context s)) s).

(** [BaseAgent._get_metadata] *)
Definition _get_metadata a : G W dict :=
  l <- self_context a ;;
  d <- read_dict l ;;
  ret [("agent_id", VStr (agent_id a));
       ("context_keys", VList (map VStr (keys d)))].

(** *** [asyncio.wait_for] *)

(** The coroutine [k], started at time [t] (counted from the start of the
    [await]), when nothing cancels it. *)
Fixpoint complete (k : coro W) (l : loc) (h : list object) (w : W) (t : Q)
    : run W :=
  match k with
  | Coro body =>
      match body l h w with
      | Done busy h' w' r => mkRun r (t + busy) h' w'
      | Await busy h' w' wait resume _ =>
          complete resume l h' w' (t + busy + secs wait)
      end
  end.

(** The times at which [k] wakes up from its suspensions when nothing
    cancels it. *)
Fixpoint wakes (k : coro W) (l : loc) (h : list object) (w : W) (t : Q)
    : list Q :=
  match k with
  | Coro body =>
      match body l h w with
      | Done _ _ _ _ => []
      | Await busy h' w' wait resume _ =>
          (t + busy + secs wait)%Q :: wakes resume l h' w' (t + busy + secs wait)
      end
  end.

(** The end of a task that [wait_for] has cancelled: [TimeoutError] when
    the cancellation came out of the coroutine, and otherwise what the
    coroutine returned or raised in its place. *)
Definition after_cancel (r : run W) : run W :=
  match completion r with
  | inl CancelledError =>
      mkRun (inl (Exc TimeoutError)) (elapsed r) (heap_after r) (world_after r)
  | _ => r
  end.

(** The coroutine [k] under a timer due at time [T]: when a suspension
    would end at [T] or later, the timer fires while the coroutine waits,
    at [T], or at once when [T] is already past; the coroutine is
    cancelled, and [wait_for] waits for it to end. *)
Fixpoint awaited (T : Q) (k : coro W) (l : loc) (h : list object) (w : W)
    (t : Q) : run W :=
  match k with
  | Coro body =>
      match body l h w with
      | Done busy h' w' r => mkRun r (t + busy) h' w'
      | Await busy h' w' wait resume cancelled =>
          if Qle_bool T (t + busy + secs wait) then
            after_cancel
              (complete cancelled l h' w'
                 (if Qle_bool T (t + busy) then t + busy else T))
          else awaited T resume l h' w' (t + busy + secs wait)
      end
  end.

(** [asyncio.wait_for(k, timeout=T)]: with a timeout that is not positive
    the coroutine is cancelled before it has started. *)
Definition wait_for_run (T : Z) (k : coro W) (l : loc) (h : list object)
    (w : W) : run W :=
  if (T <=? 0)%Z then mkRun (inl (Exc TimeoutError)) 0 h w
  else awaited (inject_Z T) k l h w 0.

(** [await asyncio.wait_for(self._execute(input_data), timeout=self.timeout)] *)
Definition wait_for a (input_data : value) : G W value :=
  l <- self_context a ;;
  h <- gets heap ;;
  w <- gets world ;;
  (if (timeout a <=? 0)%Z then ret tt
   else modify (fun s => set_views (views s ++ [mkView a l (content h l)]) s)) ;;;
  let r := wait_for_run (timeout a) (_execute a input_data) l h w in
  modify (set_heap (heap_after r)) ;;;
  modify (set_world (world_after r)) ;;;
  modify (fun s => set_clock (clock s + elapsed r)%Q s) ;;;
  match completion r with
  | inl e => raise e
  | inr v => ret v
  end.

(** *** [BaseAgent.execute] *)

Definition timeout_msg a : string :=
  "Agent execution timed out after " +:+ pretty (timeout a) +:+ "s".

(** The code that follows the [await] in the [try] block. *)
Definition on_success a (start_time : Q) (result : value) : G W AgentResult :=
  now <- time ;;
  let duration := ms_since start_time now in
  log_agent_action (name a) "execute" duration true None ;;;
  md <- _get_metadata a ;;
  ret (mkAgentResult (name a) true result None duration md).

(** The body of [except asyncio.TimeoutError]. *)
Definition on_timeout a (start_time : Q) : G W AgentResult :=
  now <- time ;;
  let duration := ms_since start_time now in
  let error_msg := timeout_msg a in
  log_agent_action (name a) "execute" duration false (Some error_msg) ;;;
  md <- _get_metadata a ;;
  ret (mkAgentResult (name a) false VNone (Some error_msg) duration md).

(** The body of [except Exception as e]. *)
Definition on_exception a (start_time : Q) (e : exn) : G W AgentResult :=
  now <- time ;;
  let duration := ms_since start_time now in
  let error_msg := str_exn e in
  logger_error ("Agent " +:+ name a +:+ " execution failed: " +:+ error_msg) ;;;
  log_agent_action (name a) "execute" duration false (Some error_msg) ;;;
  md <- _get_metadata a ;;
  ret (mkAgentResult (name a) false VNone (Some error_msg) duration md).

(** The [except] clauses of [execute]: [asyncio.TimeoutError], then
    [Exception]; nothing else is caught. *)
Definition handlers a (start_time : Q) (e : raised)
    : option (G W AgentResult) :=
  match e with
  | Exc TimeoutError => Some (on_timeout a start_time)
  | Exc (Error cls msg) => Some (on_exception a start_time (Error cls msg))
  | CancelledError => None
  | BaseExc _ _ => None
  end.

(** [BaseAgent.execute], as written. *)
Definition execute_wrapper a (input_data : value) context : G W AgentResult :=
  start_time <- time ;;
  c <- or_empty context ;;
  assign_context a c ;;;
  try_except
    (logger_info ("Agent " +:+ name a +:+ " starting execution") ;;;
     result <- wait_for a input_data ;;
     on_success a start_time result)
    (handlers a start_time).

(** [execute] with the ghost record of the call. *)
Definition execute a (input_data : value) context : G W AgentResult :=
  passed <- gets (passed_content context) ;;
  result <- execute_wrapper a input_data context ;;
  modify (fun s =>
    set_calls (calls s ++ [mkCall a input_data context passed result]) s) ;;;
  ret result.

(** *** The three steps of a call of [execute] run as a task *)

(** The code before the [await]; it gives [start_time]. *)
Definition execute_begin a context : G W Q :=
  start_time <- time ;;
  c <- or_empty context ;;
  assign_context a c ;;;
  logger_info ("Agent " +:+ name a +:+ " starting execution") ;;;
  ret start_time.

(** The awaited computation. *)
Definition execute_await a (input_data : value) : G W (raised + value) :=
  attempt (wait_for a input_data).

(** The code after the [await], resumed with what the [await] gave. *)
Definition execute_end a (start_time : Q) (r : raised + value)
    : G W AgentResult :=
  match r with
  | inr result => on_success a start_time result
  | inl e =>
      match handlers a start_time e with
      | Some handler => handler
      | None => raise e
      end
  end.

(** ** [AgentOrchestrator] *)

Record AgentOrchestrator : Type := mkOrchestrator {
  o_name : string;
  agents : list (agent W)
}.

(** [{**self._context}]: a new dict object with the same bindings; the
    bindings copied are returned with it (ghost). *)
Definition copy_dict (l : loc) : G W (loc * bindings) :=
  d <- read_dict l ;;
  c <- new_dict d ;;
  ret (c, d).

Definition new_dict_copy (l : loc) : G W loc :=
  c <- copy_dict l ;; ret (fst c).

(** [AgentOrchestrator.add_agent] *)
Definition add_agent (o : AgentOrchestrator) a : AgentOrchestrator :=
  mkOrchestrator (o_name o) (agents o ++ [a]).

(** [d[key] = v] on the dict object at [l]. *)
Definition write_key (l : loc) (key : string) (v : cvalue) : G W unit :=
  modify (fun s =>
    set_heap (<[l := ODict (bind_key (dict_at (heap s) l) key v)]> (heap s)) s).

(** The body of the [for agent in self.agents] loop of
    [execute_sequential]; [shared] is the orchestrator's [self._context],
    [todo] the agents not yet reached. *)
Fixpoint sequential_loop (shared : loc) (todo : list (agent W))
    (results : list AgentResult) (current_input : value)
    : G W (list AgentResult) :=
  match todo with
  | [] => ret results
  | a :: rest =>
      agent_context <- new_dict_copy shared ;;
      (if truthy results then
         write_key agent_context "previous_results"
           (Val (previous_results results))
       else ret tt) ;;;
      result <- execute a current_input (Some agent_context) ;;
      let results := results ++ [result] in
      if negb (success result) then
        logger_error ("Agent " +:+ name a +:+ " failed: " +:+
                      str_opt (error result)) ;;;
        ret results
      else sequential_loop shared rest results (data result)
  end.

(** [AgentOrchestrator.execute_sequential] *)
Definition execute_sequential (o : AgentOrchestrator) (initial_input : value)
    context : G W (list AgentResult) :=
  shared <- or_empty context ;;
  sequential_loop shared (agents o) [] initial_input.

(** A call [agent.execute(input_data, agent_context)] made and not yet
    awaited; [t_passed] are the bindings of [agent_context] at the call
    (ghost). *)
Record task : Type := mkTask {
  t_agent : agent W;
  t_context : loc;
  t_passed : bindings
}.

(** How far a task has got. *)
Inductive phase : Type :=
| Pending
| Started (start_time : Q)
| Awaited (start_time : Q) (r : raised + value)
| Finished.

(** One step of one task of a [gather]. *)
Inductive event : Type :=
| Start (i : nat)
| Run (i : nat)
| Finish (i : nat).

Definition index (ev : event) : nat :=
  match ev with
  | Start i => i
  | Run i => i
  | Finish i => i
  end.

(** The loop of [execute_parallel] that builds the tasks. *)
Fixpoint make_tasks (shared : loc) (todo : list (agent W)) : G W (list task) :=
  match todo with
  | [] => ret []
  | a :: rest =>
      agent_context <- copy_dict shared ;;
      tasks <- make_tasks shared rest ;;
      ret (mkTask a (fst agent_context) (snd agent_context) :: tasks)
  end.

(** The steps of the tasks, in the order [sched]; a step that is not the
    next one of its task is skipped; a task that raises makes the
    [gather] raise. *)
Fixpoint run_tasks (sched : list event) (input_data : value)
    (tasks : list task) (phases : list phase)
    (slots : list (option AgentResult)) : G W (list (option AgentResult)) :=
  match sched with
  | [] => ret slots
  | ev :: rest =>
      match tasks !! index ev, phases !! index ev, ev with
      | Some t, Some Pending, Start i =>
          start_time <- execute_begin (t_agent t) (Some (t_context t)) ;;
          run_tasks rest input_data tasks (<[i := Started start_time]> phases)
            slots
      | Some t, Some (Started start_time), Run i =>
          r <- execute_await (t_agent t) input_data ;;
          run_tasks rest input_data tasks (<[i := Awaited start_time r]> phases)
            slots
      | Some t, Some (Awaited start_time r), Finish i =>
          result <- execute_end (t_agent t) start_time r ;;
          modify (fun s =>
            set_calls (calls s ++ [mkCall (t_agent t) input_data
                                     (Some (t_context t)) (t_passed t) result])
              s) ;;;
          run_tasks rest input_data tasks (<[i := Finished]> phases)
            (<[i := Some result]> slots)
      | _, _, _ => run_tasks rest input_data tasks phases slots
      end
  end.

(** [await asyncio.gather] over the tasks: the results in the order of the
    tasks; [None] when [sched] ends before every task has finished. *)
Definition gather (tasks : list task) (input_data : value)
    (sched : list event) : G W (option (list AgentResult)) :=
  slots <- run_tasks sched input_data tasks
             (replicate (length tasks) Pending)
             (replicate (length tasks) None) ;;
  ret (mapM (fun o => o) slots).

(** [AgentOrchestrator.execute_parallel] *)
Definition execute_parallel (o : AgentOrchestrator) (input_data : value)
    context (sched : list event) : G W (option (list AgentResult)) :=
  shared <- or_empty context ;;
  tasks <- make_tasks shared (agents o) ;;
  results <- gather tasks input_data sched ;;
  ret results.

(** [AgentOrchestrator.execute_map_reduce] *)
Definition execute_map_reduce (o : AgentOrchestrator) (input_data : value)
    (reducer : agent W) context (sched : list event)
    : G W (option AgentResult) :=
  map_results <- execute_parallel o input_data context sched ;;
  match map_results with
  | None => ret None
  | Some map_results =>
      let successful_results := List.filter success map_results in
      if negb (truthy successful_results) then
        ret (Some (all_failed_envelope map_results))
      else
        result <- execute reducer (reduce_input successful_results) context ;;
        ret (Some result)
  end.

(** ** Summaries used in the statements *)

(** The dict object an execution binds to [self._context]. *)
Definition bound_loc context s : loc :=
  match context with
  | Some l => if truthy (dict_at (heap s) l) then l else length (heap s)
  | None => length (heap s)
  end.

(** The heap once [context or {}] has been evaluated. *)
Definition heap_bound context s : list object :=
  if decide (bound_loc context s = length (heap s))
  then heap s ++ [ODict []] else heap s.

(** The coroutine [execute] awaits, left to run to its end. *)
Definition left_alone a (input_data : value) context s : run W :=
  complete (_execute a input_data) (bound_loc context s) (heap_bound context s)
    (world s) 0.

(** The times, counted from the start of the [await], at which it wakes
    up from its suspensions. *)
Definition wake_times a (input_data : value) context s : list Q :=
  wakes (_execute a input_data) (bound_loc context s) (heap_bound context s)
    (world s) 0.

(** What the [await] of [execute] amounts to. *)
Definition awaited_run a (input_data : value) context s : run W :=
  wait_for_run (timeout a) (_execute a input_data) (bound_loc context s)
    (heap_bound context s) (world s).

Definition metadata_of a (d : bindings) : dict :=
  [("agent_id", VStr (agent_id a));
   ("context_keys", VList (map VStr (keys d)))].

(** What [execute] makes of the run [r] of the [await], started at clock
    [t0] with [self._context] bound to [l]: the envelope, or the exception
    that no handler catches. *)
Definition envelope a (t0 : Q) (l : loc) (r : run W) : raised + AgentResult :=
  let md := metadata_of a (dict_at (heap_after r) l) in
  let duration := ms_since t0 (t0 + elapsed r) in
  match completion r with
  | inr v => inr (mkAgentResult (name a) true v None duration md)
  | inl (Exc TimeoutError) =>
      inr (mkAgentResult (name a) false VNone (Some (timeout_msg a)) duration md)
  | inl (Exc (Error _ msg)) =>
      inr (mkAgentResult (name a) false VNone (Some msg) duration md)
  | inl e => inl e
  end.

(** Wherever [k] is suspended when nothing has cancelled it before, a
    cancellation comes out of it as [CancelledError]. *)
Fixpoint lets_cancel_through (k : coro W) (l : loc) (h : list object) (w : W)
    : Prop :=
  match k with
  | Coro body =>
      match body l h w with
      | Done _ _ _ _ => True
      | Await _ h' w' _ resume cancelled =>
          completion (complete cancelled l h' w' 0) = inl CancelledError /\
          lets_cancel_through resume l h' w'
      end
  end.

(** [r] is a value or an instance of [Exception]: something that the
    handlers of [execute] turn into an envelope. *)
Definition catchable {A : Type} (r : raised + A) : Prop :=
  match r with
  | inl CancelledError => False
  | inl (BaseExc _ _) => False
  | _ => True
  end.

(** What [a] raises under [wait_for] is always an instance of
    [Exception]. *)
Definition raises_exceptions_only a : Prop :=
  forall (input_data : value) (l : loc) (h : list object) (w : W),
    catchable
      (completion (wait_for_run (timeout a) (_execute a input_data) l h w)).

(** The computation of [a], when its context is another object than
    [l], leaves the object [l] as it is. *)
Definition leaves_alone a (l : loc) : Prop :=
  forall (input_data : value) (lc : loc) (h : list object) (w : W),
    lc <> l ->
    heap_after (wait_for_run (timeout a) (_execute a input_data) lc h w) !! l
    = h !! l.

(** The agents of the tasks that have started are bound to other objects
    than [l]. *)
Definition started_elsewhere (l : loc) (tasks : list task)
    (phases : list phase) s : Prop :=
  forall i t p, tasks !! i = Some t -> phases !! i = Some p ->
    match p with
    | Started _ | Awaited _ _ =>
        exists lc, agent_context s !! aref (t_agent t) = Some lc /\ lc <> l
    | _ => True
    end.

(** The steps that remain to a task in the phase [p]. *)
Definition steps_left (i : nat) (p : phase) : list event :=
  match p with
  | Pending => [Start i; Run i; Finish i]
  | Started _ => [Run i; Finish i]
  | Awaited _ _ => [Finish i]
  | Finished => []
  end.

Definition concerns (i : nat) (ev : event) : bool := Nat.eqb (index ev) i.

(** [sched] lets each of [n] tasks make its three steps, in their order. *)
Definition interleaving (n : nat) (sched : list event) : Prop :=
  Forall (fun ev => index ev < n) sched /\
  forall i, i < n ->
    List.filter (concerns i) sched = [Start i; Run i; Finish i].

Definition unfinished (p : phase) : bool :=
  match p with
  | Finished => false
  | _ => true
  end.

(** The steps of [sched] are those that remain to the tasks. *)
Definition in_step (phases : list phase) (sched : list event) : Prop :=
  Forall (fun ev => index ev < length phases) sched /\
  forall i p, phases !! i = Some p ->
    List.filter (concerns i) sched = steps_left i p.

(** The agent of a task that has started has a context, and what the
    [await] of a task gave is a value or an instance of [Exception]. *)
Definition started_sound (tasks : list task) (phases : list phase) s : Prop :=
  forall i t p, tasks !! i = Some t -> phases !! i = Some p ->
    match p with
    | Started _ => is_Some (agent_context s !! aref (t_agent t))
    | Awaited _ r =>
        is_Some (agent_context s !! aref (t_agent t)) /\ catchable r
    | _ => True
    end.

(** The tasks in the order in which they finish. *)
Definition finish_order (sched : list event) : list nat :=
  omap (fun ev => match ev with Finish i => Some i | _ => None end) sched.

End Base.

(** ** Two statements of the specification that the code does not
    satisfy, as the specification words them *)

Section Stated.

Context {W : Type}.

Implicit Types (s : state W) (a : agent W) (context : option loc).

(** The value the computation returned, when it returned within the
    deadline. *)
Definition returned_within_deadline a (r : run W) : option value :=
  match completion r with
  | inr v => if Qle_bool (elapsed r) (inject_Z (timeout a)) then Some v else None
  | inl _ => None
  end.

(** [execute] never raises, and its envelope is successful exactly when
    the computation returned within the deadline. *)
Definition never_raises a (input_data : value) context s : Prop :=
  exists env s',
    execute a input_data context s = (inr env, s') /\
    match returned_within_deadline a (left_alone a input_data context s) with
    | Some v => success env = true /\ data env = v /\ error env = None
    | None =>
        success env = false /\ data env = VNone /\
        exists msg, error env = Some msg
    end.


End Stated.

End Async.

(** ** Concrete agents and states of the asynchronous model; the world is
    a counter of the computations run. *)

Section AsyncExamples.

Import Async.

Definition async_s0 : state nat := mkState [] ∅ 0%nat 0%Q [] [] [].

(** Raises [asyncio.CancelledError] at once. *)
Definition cancelling : agent nat :=
  mkAgent "cancel" "cancel_19c4a2e7" 30 0
    (fun _ => Coro (fun _ h w => Done 0 h (S w) (inl CancelledError))).

(** Computes for 45 seconds without an [await], then returns its input. *)
Definition blocking : agent nat :=
  mkAgent "block" "block_5e8d01aa" 30 1
    (fun v => Coro (fun _ h w => Done 45 h (S w) (inr v))).

(** Computes for 45 seconds without an [await], then raises
    [ValueError("x")]. *)
Definition blocking_failing : agent nat :=
  mkAgent "blockfail" "blockfail_a07c3d52" 30 2
    (fun _ => Coro (fun _ h w =>
       Done 45 h (S w) (inl (Exc (Error "ValueError" "x"))))).

(** [await asyncio.sleep(60)], then returns its input. *)
Definition sleeping : agent nat :=
  mkAgent "sleep" "sleep_c2b9f410" 30 3
    (fun v => Coro (fun _ h w =>
       Await 0 h (S w) (60%positive, 1%positive)
         (Coro (fun _ h w => Done 0 h w (inr v)))
         (Coro (fun _ h w => Done 0 h w (inl CancelledError))))).

(** [await asyncio.sleep(2)], then returns its input. *)
Definition napping : agent nat :=
  mkAgent "nap" "nap_4f6e0b93" 30 4
    (fun v => Coro (fun _ h w =>
       Await 0 h (S w) (2%positive, 1%positive)
         (Coro (fun _ h w => Done 0 h w (inr v)))
         (Coro (fun _ h w => Done 0 h w (inl CancelledError))))).

(** [return 1] under a timeout of 0. *)
Definition hurried : agent nat :=
  mkAgent "hurry" "hurry_70d1e8c6" 0 5
    (fun _ => Coro (fun _ h w => Done 0 h (S w) (inr (VInt 1)))).

(** [self._context["shared"].append(5)] *)
Definition appending : agent nat :=
  mkAgent "append" "append_8a3b5c17" 30 6
    (fun _ => Coro (fun l h w =>
       match binding (dict_at h l) "shared" with
       | Some (Ref items) =>
           Done 0 (<[items := OList (list_at h items ++ [Val (VInt 5)])]> h)
             (S w) (inr VNone)
       | _ => Done 0 h (S w) (inl (Exc (Error "KeyError" "'shared'")))
       end)).

(** [return list(self._context["shared"])] *)
Definition reading : agent nat :=
  mkAgent "read" "read_e94d2f60" 30 7
    (fun _ => Coro (fun l h w =>
       match binding (dict_at h l) "shared" with
       | Some c => Done 0 h (S w) (inr (deep (length h) h c))
       | None => Done 0 h (S w) (inl (Exc (Error "KeyError" "'shared'")))
       end)).

(** Returns twice its input. *)
Definition doubling : agent nat :=
  mkAgent "double" "double_3f2a91c0" 30 8
    (fun v => Coro (fun _ h w =>
       Done (50 # 1000) h (S w)
         (match v with
          | VInt n => inr (VInt (2 * n))
          | _ => inl (Exc (Error "TypeError" "unsupported operand"))
          end))).

(** Always raises [ValueError("boom")]. *)
Definition failing_async : agent nat :=
  mkAgent "fail" "fail_77aa01be" 30 9
    (fun _ => Coro (fun _ h w =>
       Done (10 # 1000) h (S w) (inl (Exc (Error "ValueError" "boom"))))).

(** Returns its input after [self._context["seen"] = True]. *)
Definition marking_async : agent nat :=
  mkAgent "mark" "mark_5d0c2e19" 30 10
    (fun v => Coro (fun l h w =>
       Done (10 # 1000)
         (<[l := ODict (bind_key (dict_at h l) "seen" (Val (VBool true)))]> h)
         (S w) (inr v))).

(** Returns the sum of the results it is given. *)
Definition summing_async : agent nat :=
  mkAgent "sum" "sum_c41e88f3" 30 11
    (fun v => Coro (fun _ h w =>
       Done (5 # 1000) h (S w)
         (match v with
          | VDict d =>
              match dict_get d "results" with
              | Some (VList l) => inr (VInt (sum_ints l))
              | _ => inl (Exc (Error "KeyError" "'results'"))
              end
          | _ => inl (Exc (Error "TypeError" "not a mapping"))
          end))).

(** [self._context["k<n>"] = True], where [n] counts the computations run
    before this one; returns its input. *)
Definition keying : agent nat :=
  mkAgent "key" "key_b1d4a9f2" 30 12
    (fun v => Coro (fun l h w =>
       Done 0
         (<[l := ODict (bind_key (dict_at h l) ("k" +:+ pretty w)
                          (Val (VBool true)))]> h)
         (S w) (inr v))).

(** A caller's context [{"shared": []}]: the dict at address 0, the list
    at address 1. *)
Definition async_shared : state nat :=
  mkState [ODict [("shared", Ref 1)]; OList []] ∅ 0%nat 0%Q [] [] [].

(** A caller's context [{"user": "u1"}]. *)
Definition async_ctx : state nat :=
  mkState [ODict [("user", Val (VStr "u1"))]] ∅ 0%nat 0%Q [] [] [].

Definition append_and_read : AgentOrchestrator :=
  mkOrchestrator "orchestrator" [appending; reading].

Definition double_and_fail : AgentOrchestrator :=
  mkOrchestrator "orchestrator" [doubling; failing_async].

Definition mark_and_double : AgentOrchestrator :=
  mkOrchestrator "orchestrator" [marking_async; doubling].

(** The steps of two tasks whose computations never wait, as CPython up
    to 3.11 orders them, and as CPython from 3.12 on does. *)
Definition steps_two_tasks : list event :=
  [Start 0; Start 1; Run 0; Run 1; Finish 0; Finish 1].

Definition steps_one_by_one : list event :=
  [Start 0; Run 0; Finish 0; Start 1; Run 1; Finish 1].

(** The second task finishes first. *)
Definition steps_second_first : list event :=
  [Start 0; Start 1; Run 1; Finish 1; Run 0; Finish 0].

End AsyncExamples.

(** * Properties *)

(** ** The execution wrapper *)

Section BaseFacts.

Context {W : Type}.

Implicit Types (s : state W) (a : agent W) (context : option loc).

Lemma bound_loc_le context s : bound_loc context s <= length (dicts s).
Proof.
  unfold bound_loc. destruct context as [l|]; [|lia].
  destruct (dicts s !! l) as [d|] eqn:E; simpl; [|lia].
  apply lookup_lt_Some in E. destruct (truthy d); lia.
Qed.

Lemma bound_loc_content context s :
  default [] ((if decide (bound_loc context s = length (dicts s))
               then dicts s ++ [[]] else dicts s) !! bound_loc context s)
  = passed_content context s.
Proof.
  unfold bound_loc, passed_content.
  destruct context as [l|].
  - destruct (dicts s !! l) as [d|] eqn:E; simpl.
    + destruct d as [|p d]; simpl.
      * rewrite decide_True by done.
        rewrite lookup_app_r by lia. by rewrite Nat.sub_diag.
      * apply lookup_lt_Some in E as Hlt.
        rewrite decide_False by lia. by rewrite E.
    + rewrite decide_True by done.
      rewrite lookup_app_r by lia. by rewrite Nat.sub_diag.
  - rewrite decide_True by done.
    rewrite lookup_app_r by lia. by rewrite Nat.sub_diag.
Qed.

Lemma heap_after_bound context s r :
  heap_after context s r !! bound_loc context s = Some (context_after r).
Proof.
  unfold heap_after. apply list_lookup_insert_eq.
  pose proof (bound_loc_le context s).
  case_decide; rewrite ?length_app; simpl; lia.
Qed.

Lemma or_empty_eq context s :
  or_empty context s =
  (inr (bound_loc context s),
   set_dicts (if decide (bound_loc context s = length (dicts s))
              then dicts s ++ [[]] else dicts s) s).
Proof.
  destruct s as [h ac na w ck lg rs cs ws].
  unfold or_empty, bound_loc, new_dict, bind, read_dict, gets, ret, set_dicts;
    simpl.
  destruct context as [l|]; simpl.
  - destruct (h !! l) as [d|] eqn:E; simpl.
    + apply lookup_lt_Some in E. destruct d; simpl.
      * by rewrite decide_True.
      * by rewrite decide_False by lia.
    + by rewrite decide_True.
  - by rewrite decide_True.
Qed.

(** [execute] always returns: the envelope of the run it started, and a
    state that differs from the initial one as displayed. *)
Lemma execute_returns a input_data context s :
  let r := core_run a input_data context s in
  let e := envelope a (clock s) r in
  exists lg,
    execute a input_data context s =
    (inr e,
     mkState (heap_after context s r)
             (<[aref a := bound_loc context s]> (agent_context s))
             (next_agent s) (world_after r) (clock_after a s r) lg
             (research_storage s)
             (calls s ++ [mkCall a input_data context
                            (passed_content context s) e])
             (writes s)).
Proof.
  intros r e.
  pose proof (bound_loc_content context s) as Hc.
  pose proof (heap_after_bound context s r) as Hb.
  unfold execute, execute_wrapper.
  unfold bind at 1. unfold gets at 1.
  unfold bind at 1. unfold bind at 1. unfold time at 1, gets at 1.
  unfold bind at 1. rewrite or_empty_eq.
  unfold heap_after, clock_after, envelope in *.
  subst e. fold (timeout_msg a).
  unfold core_run in r.
  set (b := bound_loc context s) in *.
  set (h := if decide (b = length (dicts s)) then dicts s ++ [[]] else dicts s)
    in *.
  destruct s as [h0 ac na w ck lg rs cs ws]. simpl in *.
  cbv beta iota delta [try_except bind assign_context logger_info logger_error
    log_agent_action modify time gets ret wait_for _get_metadata
    self_context read_dict write_dict raise]; simpl.
  rewrite !lookup_insert_eq. simpl. rewrite Hc. fold r.
  destruct (overruns a r) eqn:Ho; simpl.
  - rewrite !lookup_insert_eq. simpl. rewrite Hb. simpl.
    eexists. reflexivity.
  - destruct (completion r) as [[|c m]|v] eqn:Hcp; simpl;
      rewrite !lookup_insert_eq; simpl; rewrite Hb; simpl;
      eexists; reflexivity.
Qed.

End BaseFacts.

(** ** Sequential orchestration *)

Section Sequential.

Context {W : Type}.

Implicit Types (s : state W) (a : agent W) (context : option loc).

Lemma bound_loc_lookup context s :
  (if decide (bound_loc context s = length (dicts s))
   then dicts s ++ [[]] else dicts s) !! bound_loc context s
  = Some (passed_content context s).
Proof.
  unfold bound_loc, passed_content.
  destruct context as [l|].
  - destruct (dicts s !! l) as [d|] eqn:E; simpl.
    + destruct d as [|p d]; simpl.
      * rewrite decide_True by done.
        rewrite lookup_app_r by lia. by rewrite Nat.sub_diag.
      * apply lookup_lt_Some in E as Hlt.
        rewrite decide_False by lia. by rewrite E.
    + rewrite decide_True by done.
      rewrite lookup_app_r by lia. by rewrite Nat.sub_diag.
  - rewrite decide_True by done.
    rewrite lookup_app_r by lia. by rewrite Nat.sub_diag.
Qed.

Lemma heap_after_length context s (r : run W) :
  length (dicts s) <= length (heap_after context s r).
Proof.
  unfold heap_after. rewrite length_insert.
  case_decide; rewrite ?length_app; simpl; lia.
Qed.

Lemma heap_after_other context s (r : run W) (l : loc) :
  l < length (dicts s) -> context <> Some l ->
  heap_after context s r !! l = dicts s !! l.
Proof.
  intros Hl Hne. unfold heap_after.
  assert (bound_loc context s <> l) as Hb.
  { unfold bound_loc. destruct context as [l'|]; [|lia].
    destruct (truthy _); [congruence|lia]. }
  rewrite list_lookup_insert_ne by done.
  case_decide; [|done]. by rewrite lookup_app_l.
Qed.

(** The first statements of an iteration of [execute_sequential]: the copy
    of the shared context, with the previous results when there are some. *)
Lemma sequential_prepare {A : Type} (shared : loc) (d0 : dict)
    (results : list AgentResult) (k : loc -> M W A) s :
  dicts s !! shared = Some d0 ->
  (agent_context <- copy_dict shared ;;
   (if truthy results then
      d <- read_dict agent_context ;;
      write_dict agent_context
        (dict_set d "previous_results" (previous_results results))
    else ret tt) ;;;
   k agent_context) s
  = k (length (dicts s))
      (set_dicts (dicts s ++ [sequential_context d0 results]) s).
Proof.
  intros Hd. destruct s as [h ac na w ck lg rs cs ws]. simpl in *.
  unfold sequential_context.
  cbv beta iota delta [bind copy_dict read_dict new_dict write_dict gets
    modify ret]; simpl.
  rewrite Hd; simpl.
  destruct (truthy results); simpl; [|done].
  unfold set_dicts; simpl.
  rewrite lookup_app_r by lia. rewrite Nat.sub_diag. simpl.
  rewrite insert_app_r_alt by lia. by rewrite Nat.sub_diag.
Qed.

Lemma envelope_name a (t0 : Q) (r : run W) :
  agent_name (envelope a t0 r) = name a.
Proof.
  unfold envelope. destruct (overruns a r); [done|].
  by destruct (completion r) as [[|c m]|v].
Qed.

Lemma envelope_agent_id a (t0 : Q) (r : run W) :
  dict_get (metadata (envelope a t0 r)) "agent_id" = Some (VStr (agent_id a)).
Proof.
  unfold envelope. destruct (overruns a r); [done|].
  by destruct (completion r) as [[|c m]|v].
Qed.

(** One iteration of the loop of [execute_sequential]. *)
Lemma sequential_step a (rest : list (agent W)) (shared : loc) (d0 : dict)
    (results : list AgentResult) (input : value) s :
  dicts s !! shared = Some d0 ->
  let r := _execute a input (sequential_context d0 results) (world s) in
  let e := envelope a (clock s) r in
  exists s2,
    sequential_loop shared (a :: rest) results input s =
      (if success e
       then sequential_loop shared rest (results ++ [e]) (data e) s2
       else (inr (results ++ [e]),
             set_log (log s2 ++
               [LogError ("Agent " +:+ name a +:+ " failed: " +:+
                          str_opt (error e))]) s2)) /\
    calls s2 = calls s ++
      [mkCall a input (Some (length (dicts s)))
         (sequential_context d0 results) e] /\
    dicts s2 !! shared = Some d0 /\
    world s2 = world_after r /\
    clock s2 = clock_after a s r /\
    next_agent s2 = next_agent s /\
    research_storage s2 = research_storage s /\
    writes s2 = writes s.
Proof.
  intros Hd r e.
  pose (sA := set_dicts (dicts s ++ [sequential_context d0 results]) s).
  destruct (execute_returns a input (Some (length (dicts s))) sA) as [lg Hex].
  assert (passed_content (Some (length (dicts s))) sA
          = sequential_context d0 results) as Hp.
  { unfold passed_content, sA; simpl.
    rewrite lookup_app_r by lia. by rewrite Nat.sub_diag. }
  unfold core_run in Hex. rewrite Hp in Hex.
  change (world sA) with (world s) in Hex.
  change (clock sA) with (clock s) in Hex.
  fold r in Hex. fold e in Hex.
  eexists. split.
  { cbn [sequential_loop].
    rewrite (sequential_prepare shared d0 results _ s Hd).
    fold sA. unfold bind at 1. rewrite Hex.
    destruct (success e); simpl; reflexivity. }
  simpl. repeat split; try done.
  apply lookup_lt_Some in Hd as Hlt.
  rewrite heap_after_other.
  - unfold sA; simpl. by rewrite lookup_app_l.
  - unfold sA; simpl. rewrite length_app. lia.
  - intros [=]. lia.
Qed.

Lemma sequential_loop_spec (todo : list (agent W)) :
  forall (shared : loc) (d0 : dict) (results : list AgentResult)
         (input : value) s,
    dicts s !! shared = Some d0 ->
    exists new s' cs,
      sequential_loop shared todo results input s = (inr (results ++ new), s') /\
      calls s' = calls s ++ cs /\
      map c_agent cs = take (length new) todo /\
      map c_result cs = new /\
      map c_input cs = take (length new) (input :: map data new) /\
      (forall i c, cs !! i = Some c ->
         c_passed c = sequential_context d0 (results ++ take i new)) /\
      (forall i e, new !! i = Some e -> success e = false -> S i = length new) /\
      (length new < length todo ->
         exists e, last new = Some e /\ success e = false) /\
      length new <= length todo /\
      Forall (fun c => agent_name (c_result c) = name (c_agent c)) cs.
Proof.
  induction todo as [|a rest IH]; intros shared d0 results input s Hd.
  - exists [], s, []. simpl. rewrite !app_nil_r.
    repeat split; try done; try lia.
  - destruct (sequential_step a rest shared d0 results input s Hd)
      as (s2 & Hstep & Hc2 & Hd2 & _).
    set (e := envelope a (clock s) _) in *.
    rewrite Hstep. clear Hstep.
    destruct (success e) eqn:Hs.
    + destruct (IH shared d0 (results ++ [e]) (data e) s2 Hd2)
        as (new & s' & cs & Hrun & Hcalls & Hag & Hres & Hin & Hpass & Hfail
            & Hstop & Hlen & Hnm).
      eexists (e :: new), s', (_ :: cs).
      rewrite Hrun, <- app_assoc. simpl.
      repeat split.
      * rewrite Hcalls, Hc2. by rewrite <- app_assoc.
      * by rewrite Hag.
      * by rewrite Hres.
      * by rewrite Hin.
      * intros [|i] c Hc; simpl in *.
        -- injection Hc as <-. simpl. by rewrite app_nil_r.
        -- rewrite (Hpass i c Hc). by rewrite <- app_assoc.
      * intros [|i] e' He' Hf; simpl in *.
        -- injection He' as <-. congruence.
        -- f_equal. eauto.
      * intros Hlt. destruct Hstop as (e' & Hl & Hf); [lia|].
        exists e'. split; [|done].
        destruct new; [done|]. by rewrite last_cons, Hl.
      * lia.
      * constructor; [apply envelope_name|done].
    + eexists [e], _, [_].
      simpl. split; [reflexivity|]. simpl. repeat split; try done.
      * intros [|i] c Hc; simpl in *; [|done].
        injection Hc as <-. simpl. by rewrite app_nil_r.
      * intros [|i] e' He' Hf; simpl in *; [done|done].
      * intros _. by exists e.
      * lia.
      * repeat constructor. apply envelope_name.
Qed.

Lemma dict_get_set_eq (d : dict) (k : string) (v : value) :
  dict_get (dict_set d k v) k = Some v.
Proof.
  induction d as [|[k' v'] d IH]; simpl.
  - by rewrite String.eqb_refl.
  - destruct (String.eqb k' k) eqn:E; simpl; rewrite E; [done|exact IH].
Qed.

Lemma execute_sequential_spec (o : AgentOrchestrator) (input : value)
    context s :
  exists rs s' cs,
    execute_sequential o input context s = (inr rs, s') /\
    calls s' = calls s ++ cs /\
    map c_agent cs = take (length rs) (agents o) /\
    map c_result cs = rs /\
    map c_input cs = take (length rs) (input :: map data rs) /\
    (forall i c, cs !! i = Some c ->
       c_passed c = sequential_context (passed_content context s) (take i rs)) /\
    (forall i e, rs !! i = Some e -> success e = false -> S i = length rs) /\
    (length rs < length (agents o) ->
       exists e, last rs = Some e /\ success e = false) /\
    length rs <= length (agents o) /\
    Forall (fun c => agent_name (c_result c) = name (c_agent c)) cs.
Proof.
  unfold execute_sequential, bind. rewrite or_empty_eq.
  set (s1 := set_dicts _ s).
  destruct (sequential_loop_spec (agents o) (bound_loc context s)
              (passed_content context s) [] input s1)
    as (new & s' & cs & Hrun & Hrest).
  { apply bound_loc_lookup. }
  exists new, s', cs. split; [exact Hrun|exact Hrest].
Qed.

(** C2. [execute_sequential] calls the agents one at a time in registration
    order: the calls made are those of a prefix of the registered agents,
    the first on the initial input and each later one on the data of the
    envelope before it; the returned list is the list of the envelopes of
    these calls; only its last envelope can be a failed one, and when the
    list is shorter than the list of agents its last envelope is a failed
    one (the agents after it are not called); when every envelope is
    successful there is one per registered agent, in registration order. *)
Theorem execute_sequential_stops_at_first_failure (o : AgentOrchestrator)
    (input : value) context s :
  exists rs s' cs,
    execute_sequential o input context s = (inr rs, s') /\
    calls s' = calls s ++ cs /\
    map c_agent cs = take (length rs) (agents o) /\
    map c_result cs = rs /\
    map c_input cs = take (length rs) (input :: map data rs) /\
    map agent_name rs = map name (take (length rs) (agents o)) /\
    (forall i e, rs !! i = Some e -> success e = false -> S i = length rs) /\
    (length rs < length (agents o) ->
       exists e, last rs = Some e /\ success e = false) /\
    (Forall (fun e => success e = true) rs ->
       length rs = length (agents o) /\ map c_agent cs = agents o).
Proof.
  destruct (execute_sequential_spec o input context s)
    as (rs & s' & cs & Hrun & Hcalls & Hag & Hres & Hin & _ & Hfail & Hstop
        & Hlen & Hnm).
  assert (Forall (fun e => success e = true) rs ->
          length rs = length (agents o)) as Hfull.
  { intros Hall.
    destruct (decide (length rs < length (agents o))) as [Hlt|]; [|lia].
    destruct (Hstop Hlt) as (e & Hl & Hf).
    apply last_Some_elem_of in Hl.
    rewrite Forall_forall in Hall. apply Hall in Hl. congruence. }
  exists rs, s', cs.
  split; [exact Hrun|]. split; [exact Hcalls|]. split; [exact Hag|].
  split; [exact Hres|]. split; [exact Hin|].
  split; [|split; [exact Hfail|split; [exact Hstop|]]].
  - rewrite <- Hag, <- Hres, !map_map. clear -Hnm.
    induction Hnm as [|c cs Hc _ IH]; simpl; [done|]. by rewrite Hc, IH.
  - intros Hall. split; [by apply Hfull|].
    rewrite Hag. apply take_ge. rewrite (Hfull Hall). lia.
Qed.

(** C3, as amended.  In [execute_sequential] the context passed to the first
    agent called is a copy of the shared context, to which nothing is added;
    the context passed to every later agent contains a [previous_results]
    entry equal to the list of the data of the prior successful envelopes of
    the run. *)
Theorem previous_results_from_second_call (o : AgentOrchestrator)
    (input : value) context s :
  exists rs s' cs,
    execute_sequential o input context s = (inr rs, s') /\
    calls s' = calls s ++ cs /\
    map c_result cs = rs /\
    forall i c, cs !! i = Some c ->
      match i with
      | O => c_passed c = passed_content context s
      | S _ =>
          dict_get (c_passed c) "previous_results"
          = Some (VList (map data (List.filter success (take i rs))))
      end.
Proof.
  destruct (execute_sequential_spec o input context s)
    as (rs & s' & cs & Hrun & Hcalls & Hag & Hres & Hin & Hpass & _).
  exists rs, s', cs. repeat split; try done.
  intros i c Hc. rewrite (Hpass i c Hc).
  destruct i as [|i]; [done|].
  assert (i < length rs) as Hlt.
  { apply lookup_lt_Some in Hc. rewrite <- Hres, length_map. lia. }
  unfold sequential_context.
  destruct rs as [|e rs]; [simpl in Hlt; lia|]. simpl.
  apply dict_get_set_eq.
Qed.

End Sequential.

(** ** Chained execution *)

Section Chain.

Context {W : Type}.

Implicit Types (s : state W) (a : agent W) (context : option loc).

(** One iteration of the loop of [execute_chain]. *)
Lemma chain_step a (fuel : nat) (results : list AgentResult) (input : value)
    context s :
  let r := core_run a input context s in
  let e := envelope a (clock s) r in
  exists s',
    chain_loop (S fuel) (Some a) results input context s =
      (if success e
       then chain_loop fuel (next_agent s !! aref a) (results ++ [e]) (data e)
              context s'
       else (inr (Some (results ++ [e])), s')) /\
    calls s' = calls s ++ [mkCall a input context (passed_content context s) e] /\
    world s' = world_after r /\
    clock s' = clock_after a s r /\
    next_agent s' = next_agent s.
Proof.
  intros r e.
  destruct (execute_returns a input context s) as [lg Hex].
  fold r in Hex. fold e in Hex.
  eexists. split.
  { cbn [chain_loop]. unfold bind at 1. rewrite Hex.
    destruct (success e); simpl; reflexivity. }
  simpl. by repeat split.
Qed.

Lemma chain_loop_end (fuel : nat) (results : list AgentResult)
    (input : value) context :
  chain_loop (W:=W) fuel None results input context = ret (Some results).
Proof. by destruct fuel. Qed.

Lemma linked_next s s' a (rest : list (agent W)) :
  next_agent s' = next_agent s -> linked s a rest -> linked s' a rest.
Proof.
  intros Hn. revert a. induction rest as [|b rest IH]; intros a; simpl.
  - by rewrite Hn.
  - rewrite Hn. intros [? ?]. split; [done|]. by apply IH.
Qed.

Lemma envelope_core_eq a (t0 : Q) (r1 r2 : run W) :
  completion r1 = completion r2 -> elapsed r1 = elapsed r2 ->
  envelope_core (envelope a t0 r1) = envelope_core (envelope a t0 r2).
Proof.
  intros Hc He. unfold envelope_core, envelope, overruns.
  rewrite Hc, He.
  destruct (Qle_bool _ _); [done|].
  by destruct (completion r2) as [[|c m]|v].
Qed.

Lemma envelope_core_success (e1 e2 : AgentResult) :
  envelope_core e1 = envelope_core e2 ->
  success e1 = success e2 /\ data e1 = data e2.
Proof. unfold envelope_core. intros [=]. done. Qed.

Lemma chain_simulates_sequential (rest : list (agent W)) :
  forall a (fuel : nat) (results1 results2 : list AgentResult)
         (input : value) context (shared : loc) (d0 : dict) s1 s2,
    linked s1 a rest ->
    Forall context_free (a :: rest) ->
    length rest < fuel ->
    world s1 = world s2 -> clock s1 = clock s2 ->
    dicts s2 !! shared = Some d0 ->
    exists new1 new2 s1' s2' cs1 cs2,
      chain_loop fuel (Some a) results1 input context s1
        = (inr (Some (results1 ++ new1)), s1') /\
      sequential_loop shared (a :: rest) results2 input s2
        = (inr (results2 ++ new2), s2') /\
      map envelope_core new1 = map envelope_core new2 /\
      calls s1' = calls s1 ++ cs1 /\
      calls s2' = calls s2 ++ cs2 /\
      map c_agent cs1 = map c_agent cs2 /\
      map c_input cs1 = map c_input cs2.
Proof.
  induction rest as [|b rest IH];
    intros a fuel results1 results2 input context shared d0 s1 s2
           Hl Hcf Hfuel Hw Hck Hd;
    (destruct fuel as [|fuel]; [simpl in Hfuel; lia|]);
    destruct (chain_step a fuel results1 input context s1)
      as (s1' & Hch & Hc1 & Hw1 & Hk1 & Hn1);
    match goal with
    | |- context [sequential_loop _ (a :: ?l) _ _ _] =>
        destruct (sequential_step a l shared d0 results2 input s2 Hd)
          as (s2' & Hsq & Hc2 & Hd2 & Hw2 & Hk2 & Hn2 & _)
    end;
    unfold core_run in *;
    set (r1 := _execute a input (passed_content context s1) (world s1)) in *;
    set (r2 := _execute a input (sequential_context d0 results2) (world s2))
      in *;
    set (e1 := envelope a (clock s1) r1) in *;
    set (e2 := envelope a (clock s2) r2) in *;
    apply Forall_cons in Hcf as [Hcfa Hcf];
    assert (completion r1 = completion r2 /\ elapsed r1 = elapsed r2 /\
            world_after r1 = world_after r2) as (Hcomp & Hel & Hwa)
      by (unfold r1, r2; rewrite <- Hw; apply Hcfa);
    assert (envelope_core e1 = envelope_core e2) as Hcore
      by (unfold e1, e2; rewrite Hck; by apply envelope_core_eq);
    destruct (envelope_core_success _ _ Hcore) as [Hsucc Hdata];
    rewrite Hch, Hsq, <- Hsucc; clear Hch Hsq;
    destruct (success e1) eqn:Hs.
  - simpl in Hl. rewrite Hl, chain_loop_end. unfold ret. simpl.
    eexists [e1], [e2], _, _, [_], [_].
    split; [reflexivity|]. split; [reflexivity|].
    simpl. rewrite Hcore.
    split; [done|]. split; [exact Hc1|]. split; [exact Hc2|]. done.
  - eexists [e1], [e2], _, _, [_], [_].
    split; [reflexivity|]. split; [reflexivity|].
    simpl. rewrite Hcore.
    split; [done|]. split; [exact Hc1|]. split; [exact Hc2|]. done.
  - simpl in Hl. destruct Hl as [Hnx Hl]. rewrite Hnx.
    destruct (IH b fuel (results1 ++ [e1]) (results2 ++ [e2]) (data e1)
                context shared d0 s1' s2')
      as (new1 & new2 & t1 & t2 & cs1 & cs2 & Hr1 & Hr2 & Hcs & Hca & Hcb
          & Hag & Hin); try done.
    + by apply (linked_next s1).
    + simpl in Hfuel. lia.
    + by rewrite Hw1, Hw2.
    + rewrite Hk1, Hk2. unfold clock_after, overruns. by rewrite Hck, Hel.
    + rewrite <- Hdata.
      eexists (e1 :: new1), (e2 :: new2), t1, t2, (_ :: cs1), (_ :: cs2).
      rewrite Hr1, Hr2, <- !app_assoc. simpl.
      split; [reflexivity|]. split; [reflexivity|].
      rewrite Hcore, Hcs, Hca, Hcb, Hc1, Hc2, <- !app_assoc. simpl.
      rewrite Hag, Hin. by repeat split.
  - eexists [e1], [e2], _, _, [_], [_].
    split; [reflexivity|]. split; [reflexivity|].
    simpl. rewrite Hcore.
    split; [done|]. split; [exact Hc1|]. split; [exact Hc2|]. done.
Qed.

(** C6, as amended.  For a chain [a -> ... ] whose last agent has no
    successor and whose core computations do not depend on the agent's
    context, [execute_chain] from [a] (with more fuel than the chain has
    links) and [execute_sequential] over the orchestrator registered with
    the same agents, on the same input and context, call the same agents on
    the same inputs with the same stop condition, and their envelopes agree
    on the agent name, success, data, error, duration and agent id (the
    [context_keys] of the metadata are left out). *)
Theorem execute_chain_matches_sequential a (rest : list (agent W))
    (fuel : nat) (nm : string) (input : value) context s :
  linked s a rest ->
  Forall context_free (a :: rest) ->
  length rest < fuel ->
  exists rs1 s1 rs2 s2 cs1 cs2,
    execute_chain fuel a input context s = (inr (Some rs1), s1) /\
    execute_sequential (mkOrchestrator nm (a :: rest)) input context s
      = (inr rs2, s2) /\
    map envelope_core rs1 = map envelope_core rs2 /\
    calls s1 = calls s ++ cs1 /\
    calls s2 = calls s ++ cs2 /\
    map c_agent cs1 = map c_agent cs2 /\
    map c_input cs1 = map c_input cs2.
Proof.
  intros Hl Hcf Hfuel.
  unfold execute_chain, execute_sequential, bind. rewrite or_empty_eq.
  set (s2 := set_dicts _ s). simpl.
  destruct (chain_simulates_sequential rest a fuel [] [] input context
              (bound_loc context s) (passed_content context s) s s2)
    as (new1 & new2 & t1 & t2 & cs1 & cs2 & H); try done.
  { apply bound_loc_lookup. }
  exists new1, t1, new2, t2, cs1, cs2. exact H.
Qed.

End Chain.



(** ** Context replacement by [execute] *)

Section Context.

Context {W : Type}.

Implicit Types (s : state W) (a : agent W) (context : option loc).


End Context.

(** ** The status store *)

Section Tracker.

Context {W : Type}.

Implicit Types (s : state W).

Lemma update_research_status_known (research_id status : string)
    (progress : Z) (message : string) (entry : gmap string value) s :
  research_storage s !! research_id = Some entry ->
  update_research_status research_id status progress message s =
  (inr tt,
   set_writes (writes s ++ [mkWrite research_id status progress message])
     (set_research_storage
        (<[research_id :=
             <["updated_at" := VDatetime (clock s)]>
               (<["message" := VStr message]>
                  (<["progress" := VInt progress]>
                     (<["status" := VStr status]> entry)))]>
           (research_storage s)) s)).
Proof.
  intros He. unfold update_research_status, bind, gets, time, modify.
  by rewrite He.
Qed.

Lemma update_research_status_unknown (research_id status : string)
    (progress : Z) (message : string) s :
  research_storage s !! research_id = None ->
  update_research_status research_id status progress message s = (inr tt, s).
Proof.
  intros He. unfold update_research_status, bind, gets.
  by rewrite He.
Qed.

(** C8. [update_research_status] never raises.  On a known id it writes
    status, progress and message, sets [updated_at] to the current time,
    and leaves every other field of the entry and every other entry as they
    were; on an unknown id the state is unchanged. *)
Theorem update_overwrites_mutable_fields (research_id status : string)
    (progress : Z) (message : string) s :
  exists s',
    update_research_status research_id status progress message s
      = (inr tt, s') /\
    match research_storage s !! research_id with
    | Some entry =>
        exists entry',
          research_storage s' !! research_id = Some entry' /\
          entry' !! "status" = Some (VStr status) /\
          entry' !! "progress" = Some (VInt progress) /\
          entry' !! "message" = Some (VStr message) /\
          entry' !! "updated_at" = Some (VDatetime (clock s)) /\
          (forall k, k ∉ mutable_fields -> entry' !! k = entry !! k) /\
          (forall other, other <> research_id ->
             research_storage s' !! other = research_storage s !! other)
    | None => s' = s
    end.
Proof.
  destruct (research_storage s !! research_id) as [entry|] eqn:He.
  - eexists. split; [by apply update_research_status_known|].
    eexists. simpl. split; [apply lookup_insert_eq|].
    repeat split.
    + by simplify_map_eq.
    + by simplify_map_eq.
    + by simplify_map_eq.
    + by simplify_map_eq.
    + intros k Hk. unfold mutable_fields in Hk.
      rewrite !not_elem_of_cons in Hk. destruct Hk as (? & ? & ? & ? & _).
      by rewrite !lookup_insert_ne.
    + intros other Hne. by rewrite lookup_insert_ne.
  - exists s. split; [by apply update_research_status_unknown|done].
Qed.

(** [get_research_status] on an id that is not in the store: the name
    [ResourceNotFoundError] is not bound in the module, its evaluation
    raises [NameError]. *)
Lemma get_research_status_unknown (research_id : string) s :
  research_storage s !! research_id = None ->
  get_research_status research_id s =
  (inl (Error "NameError" "name 'ResourceNotFoundError' is not defined"), s).
Proof.
  intros He. unfold get_research_status, bind, gets. by rewrite He.
Qed.

(** [get_research_status] after an update of a known id returns what was
    just written. *)
Lemma get_after_update (research_id status message i : string)
    (progress : Z) (t : Q) (entry : gmap string value) s s' :
  research_storage s !! research_id = Some entry ->
  entry !! "id" = Some (VStr i) ->
  entry !! "created_at" = Some (VDatetime t) ->
  update_research_status research_id status progress message s = (inr tt, s') ->
  get_research_status research_id s' =
  (inr (mkStatus i status progress message t (clock s)), s').
Proof.
  intros He Hi Ht Hup.
  rewrite (update_research_status_known _ _ _ _ entry s He) in Hup.
  injection Hup as <-.
  unfold get_research_status, bind, gets. simpl.
  rewrite lookup_insert_eq.
  unfold entry_item. simplify_map_eq. done.
Qed.

End Tracker.

(** ** The workflow driver *)

Section Driver.

Context {W : Type}.

Implicit Types (s : state W) (a : agent W).

Lemma bind_returns {A B : Type} (m : M W A) (k : A -> M W B) s (y : B) s' :
  bind m k s = (inr y, s') ->
  exists x s1, m s = (inr x, s1) /\ k x s1 = (inr y, s').
Proof.
  unfold bind. destruct (m s) as [[e|x] s1]; [done|]. eauto.
Qed.

Lemma try_except_succeeded (m : M W value) (h : exn -> M W value) s
    (v : value) s' :
  (forall e s1 v1 s2, h e s1 = (inr v1, s2) -> succeeded v1 = false) ->
  try_except m h s = (inr v, s') -> succeeded v = true ->
  m s = (inr v, s').
Proof.
  intros Hh. unfold try_except. destruct (m s) as [[e|x] s1]; [|done].
  intros Heq Hs. apply Hh in Heq. congruence.
Qed.

Lemma tracked_update (research_id status message : string) (progress : Z)
    (ws : list status_write) (s0 s : state W) (x : unit) s' :
  tracked research_id ws s0 s ->
  update_research_status research_id status progress message s = (inr x, s') ->
  tracked research_id (ws ++ [mkWrite research_id status progress message])
    s0 s'.
Proof.
  intros [[entry He] Hw] Hup. destruct x.
  rewrite (update_research_status_known _ _ _ _ entry s He) in Hup.
  injection Hup as <-. split; simpl.
  - rewrite lookup_insert_eq. eauto.
  - by rewrite Hw, <- app_assoc.
Qed.

Lemma tracked_execute (research_id : string) (ws : list status_write)
    (s0 s : state W) a (input : value) (context : option loc)
    (e : AgentResult) s' :
  tracked research_id ws s0 s ->
  execute a input context s = (inr e, s') ->
  tracked research_id ws s0 s'.
Proof.
  intros [Hk Hw] Hex.
  destruct (execute_returns a input context s) as [lg Heq].
  rewrite Heq in Hex. injection Hex as <- <-. by split.
Qed.

Lemma check_success_returns (what : string) (r : AgentResult) s (x : unit) s' :
  check_success (W:=W) what r s = (inr x, s') -> s' = s.
Proof.
  unfold check_success, raise_ResearchError, raise, ret.
  destruct (success r); simpl; congruence.
Qed.

Lemma py_slice_to_returns (v : value) (n : Z) s (x : value) s' :
  py_slice_to (W:=W) v n s = (inr x, s') -> s' = s.
Proof. destruct v; unfold py_slice_to, raise, ret; congruence. Qed.

Lemma py_len_returns (v : value) s (x : Z) s' :
  py_len (W:=W) v s = (inr x, s') -> s' = s.
Proof. destruct v; unfold py_len, raise, ret; congruence. Qed.

Lemma py_get_returns (v : value) (k : string) (d : value) s (x : value) s' :
  py_get (W:=W) v k d s = (inr x, s') -> s' = s.
Proof. destruct v; unfold py_get, raise, ret; congruence. Qed.

Lemma ret_returns {A : Type} (x y : A) s s' :
  ret (W:=W) x s = (inr y, s') -> y = x /\ s' = s.
Proof. unfold ret. intros [=]. done. Qed.

Lemma research_handler_fails (research_id : string) (e : exn) s (v : value) s' :
  (logger_error ("Research execution failed: " +:+ str_exn e) ;;;
   update_research_status research_id "failed" 0 (str_exn e) ;;;
   ret (VDict [("success", VBool false);
               ("report", VStr EmptyString);
               ("metadata", VDict []);
               ("error", VStr (str_exn e))])) s = (inr v, s') ->
  succeeded v = false.
Proof.
  intros H.
  apply bind_returns in H as (? & ? & _ & H).
  apply bind_returns in H as (? & ? & _ & H).
  apply ret_returns in H as [-> _]. done.
Qed.

(** One statement of the driver: the state it leaves still holds the
    record, with the writes made so far. *)
Local Ltac driver_step H :=
  let x := fresh "x" in
  let s1 := fresh "s" in
  let Hm := fresh "Hm" in
  apply bind_returns in H as (x & s1 & Hm & H);
  match goal with
  | Ht : tracked _ _ _ ?s, Hm' : update_research_status _ _ _ _ ?s = _ |- _ =>
      apply (tracked_update _ _ _ _ _ _ _ _ _ Ht) in Hm'; clear Ht
  | Ht : tracked _ _ _ ?s, Hm' : execute _ _ _ ?s = _ |- _ =>
      apply (tracked_execute _ _ _ _ _ _ _ _ _ Ht) in Hm'; clear Ht
  | Hm' : check_success _ _ _ = _ |- _ =>
      apply check_success_returns in Hm'; subst s1
  | Hm' : py_slice_to _ _ _ = _ |- _ =>
      apply py_slice_to_returns in Hm'; subst s1
  | Hm' : py_len _ _ = _ |- _ =>
      apply py_len_returns in Hm'; subst s1
  | Hm' : py_get _ _ _ _ = _ |- _ =>
      apply py_get_returns in Hm'; subst s1
  end.

(** C7, as amended.  In every run of [execute_research] that succeeds on a
    workflow id the store knows, the statuses written to the record of that
    id are, in this order, analyzing(10), searching(25), extracting(40),
    analyzing(60), formatting(80), validating(95) when validation is
    enabled, completed(100): the progress never decreases. *)
Theorem successful_run_statuses (ags : research_agents) (research_id : string)
    (request : ResearchRequest) s (v : value) s' :
  is_Some (research_storage s !! research_id) ->
  execute_research ags research_id request s = (inr v, s') ->
  succeeded v = true ->
  exists new,
    writes s' = writes s ++ new /\
    map status_progress new = written_statuses (enable_validation request) /\
    Forall (fun w => w_id w = research_id) new /\
    StronglySorted Z.le (map w_progress new).
Proof.
  intros Hk Hrun Hs.
  unfold execute_research in Hrun.
  apply try_except_succeeded in Hrun; [|by apply research_handler_fails|done].
  assert (tracked research_id [] s s) as Ht
    by (split; [done|by rewrite app_nil_r]).
  do 16 driver_step Hrun.
  apply bind_returns in Hrun as (validated & sv & Hval & Hrun).
  destruct (enable_validation request) eqn:Hv.
  - do 2 driver_step Hval.
    match goal with
    | Ht : tracked _ _ _ ?st |- _ => assert (sv = st) as ->
    end.
    { match type of Hval with
      | context [success ?r] => destruct (success r)
      end.
      - driver_step Hval. by apply ret_returns in Hval as [_ ->].
      - by apply ret_returns in Hval as [_ ->]. }
    do 3 driver_step Hrun.
    apply ret_returns in Hrun as [_ ->].
    match goal with
    | Ht : tracked _ _ _ _ |- _ => destruct Ht as [_ Hw]
    end.
    eexists. split; [exact Hw|].
    split; [reflexivity|]. split.
    + repeat constructor.
    + simpl. repeat first [lia | constructor].
  - apply ret_returns in Hval as [_ ->].
    do 3 driver_step Hrun.
    apply ret_returns in Hrun as [_ ->].
    match goal with
    | Ht : tracked _ _ _ _ |- _ => destruct Ht as [_ Hw]
    end.
    eexists. split; [exact Hw|].
    split; [reflexivity|]. split.
    + repeat constructor.
    + simpl. repeat first [lia | constructor].
Qed.

End Driver.

(** ** The examples *)

(** The scenario of the specification: [double] then [fail], on 5. *)
Example sequential_double_then_fail :
  map (fun e => (agent_name e, success e, data e, error e))
    (default [] (match fst (execute_sequential double_then_fail (VInt 5) None s0)
                 with inr rs => Some rs | inl _ => None end))
  = [("double", true, VInt 10, None);
     ("fail", false, VNone, Some "boom")].
Proof. vm_compute. reflexivity. Qed.

(** C3 fails as stated: in the sequential run of [double] and [increment]
    on 5 without a context, the context passed to the first call has no
    [previous_results] entry. *)
Lemma first_call_has_no_previous_results :
  ~ previous_results_in_every_call double_then_increment (VInt 5) None s0.
Proof.
  intros (rs & s' & cs & Hrun & Hcalls & H).
  vm_compute in Hrun. injection Hrun as <- <-.
  simpl in Hcalls. subst cs.
  specialize (H 0%nat _ eq_refl). vm_compute in H. discriminate H.
Qed.

(** C6 fails as stated: on the chain [double -> increment], whose
    computations ignore their context, the second envelope of the
    sequential run lists [previous_results] among its context keys and the
    second envelope of the chain run does not. *)
Lemma chain_envelopes_differ :
  ~ chain_equals_sequential double [increment] 2 (VInt 5) None s_linked.
Proof.
  intros (rs & s1 & s2 & Hc & Hs).
  vm_compute in Hc. injection Hc as <- _.
  vm_compute in Hs. injection Hs as Hs _. discriminate Hs.
Qed.

(** C6 as amended, at the chain [double -> increment] on 5. *)
Lemma execute_chain_matches_sequential_witness :
  exists rs1 s1 rs2 s2 cs1 cs2,
    execute_chain 2 double (VInt 5) None s_linked = (inr (Some rs1), s1) /\
    execute_sequential (mkOrchestrator "orchestrator" [double; increment])
      (VInt 5) None s_linked = (inr rs2, s2) /\
    map envelope_core rs1 = map envelope_core rs2 /\
    calls s1 = calls s_linked ++ cs1 /\
    calls s2 = calls s_linked ++ cs2 /\
    map c_agent cs1 = map c_agent cs2 /\
    map c_input cs1 = map c_input cs2.
Proof.
  apply (execute_chain_matches_sequential double [increment] 2 "orchestrator"
           (VInt 5) None s_linked).
  - split; reflexivity.
  - repeat constructor.
  - simpl. lia.
Defined.


(** A value set by [set_context] before a call is gone once [execute] has
    bound the passed context. *)
Example stale_context_is_discarded :
  fst ((init_agent double ;;;
        set_context double "old" (VInt 1) ;;;
        before <- get_context double "old" VNone ;;
        execute double (VInt 5) None ;;;
        after <- get_context double "old" VNone ;;
        ret (before, after)) s0)
  = inr (VInt 1, VNone).
Proof. vm_compute. reflexivity. Qed.

(** C7 fails as stated: the successful run of the workflow on [r1] writes
    [analyzing] with progress 60 where the specification lists
    [synthesizing]. *)
Lemma run_never_writes_synthesizing :
  ~ passes_listed_statuses demo_agents "r1" demo_request s_research.
Proof.
  unfold passes_listed_statuses. intros H.
  remember (execute_research demo_agents "r1" demo_request s_research)
    as p eqn:Hp in H.
  vm_compute in Hp. subst p.
  destruct (H _ _ eq_refl eq_refl) as (new & Hw & Hst).
  simpl in Hw. subst new. vm_compute in Hst. discriminate Hst.
Qed.

(** C7 as amended, at the run of the workflow on [r1] with validation
    enabled. *)
Lemma successful_run_statuses_witness :
  exists new,
    writes (snd (execute_research demo_agents "r1" demo_request s_research))
      = writes s_research ++ new /\
    map status_progress new = written_statuses (enable_validation demo_request) /\
    Forall (fun w => w_id w = "r1") new /\
    StronglySorted Z.le (map w_progress new).
Proof.
  apply (successful_run_statuses demo_agents "r1" demo_request s_research
           (match fst (execute_research demo_agents "r1" demo_request
                         s_research) with
            | inr v => v
            | inl _ => VNone
            end)).
  - unfold s_research, set_research_storage. cbn [research_storage].
    rewrite lookup_insert_eq. by eexists.
  - vm_compute. reflexivity.
  - vm_compute. reflexivity.
Defined.

(** C9, the failing case: [get_research_status] on an id the store does not
    hold raises [NameError], not the not-found error. *)
Theorem get_unknown_raises_name_error :
  get_research_status "test-research-id" s0 =
  (inl (Error "NameError" "name 'ResourceNotFoundError' is not defined"), s0).
Proof. vm_compute. reflexivity. Qed.

(** [update] followed by [get] on a known id. *)
Example get_returns_written_values :
  fst ((update_research_status "r1" "searching" 25 "Searching for information..." ;;;
        get_research_status "r1") s_research)
  = inr (mkStatus "r1" "searching" 25 "Searching for information..." 0 0).
Proof. vm_compute. reflexivity. Qed.

(** * Further properties *)

(** ** The agent's context and the execution wrapper *)

Section MoreBase.

Context {W : Type}.

Implicit Types (s : state W) (a : agent W) (context : option loc).

Lemma dict_get_set_ne (d : dict) (k k' : string) (v : value) :
  k' <> k -> dict_get (dict_set d k v) k' = dict_get d k'.
Proof.
  intros Hne. induction d as [|[k0 v0] d IH]; simpl.
  - destruct (String.eqb k k') eqn:E; [|done].
    apply String.eqb_eq in E. congruence.
  - destruct (String.eqb k0 k) eqn:E; simpl.
    + apply String.eqb_eq in E. subst k0.
      destruct (String.eqb k k') eqn:E'; [|done].
      apply String.eqb_eq in E'. congruence.
    + destruct (String.eqb k0 k'); [done|exact IH].
Qed.

(** X1. On an agent whose context is a dict of the heap, [set_context]
    followed by [get_context] of the same key returns the value just set,
    whatever the default, and the other keys read as before. *)
Theorem set_context_then_get a (key : string) (v dflt : value) s (l : loc) :
  agent_context s !! aref a = Some l ->
  l < length (dicts s) ->
  exists s',
    set_context a key v s = (inr tt, s') /\
    get_context a key dflt s' = (inr v, s') /\
    forall (other : string) (d : value), other <> key ->
      fst (get_context a other d s') = fst (get_context a other d s).
Proof.
  intros Hl Hlt.
  unfold set_context, get_context, bind, self_context, read_dict, write_dict,
    gets, modify, ret.
  rewrite Hl. eexists. split; [reflexivity|].
  simpl. rewrite Hl. simpl.
  rewrite list_lookup_insert_eq by done. simpl.
  split.
  - by rewrite dict_get_set_eq.
  - intros other d Hne. by rewrite dict_get_set_ne.
Qed.


End MoreBase.



(** ** More on chains *)

Section MoreChain.

Context {W : Type}.

Implicit Types (s : state W) (a : agent W) (context : option loc).

Lemma chain_loop_spec (fuel : nat) :
  forall a (results : list AgentResult) (input : value) context s
         (rs : list AgentResult) s',
    chain_loop fuel (Some a) results input context s = (inr (Some rs), s') ->
    exists new cs,
      rs = results ++ new /\
      calls s' = calls s ++ cs /\
      map c_result cs = new /\
      head (map c_agent cs) = Some a /\
      follows_links (next_agent s) cs /\
      Forall (fun c => c_context c = context) cs /\
      map c_input cs = take (length new) (input :: map data new) /\
      (forall i e, new !! i = Some e -> success e = false -> S i = length new) /\
      (forall c, last cs = Some c -> success (c_result c) = true ->
         next_agent s !! aref (c_agent c) = None) /\
      next_agent s' = next_agent s.
Proof.
  induction fuel as [|fuel IH]; intros a results input context s rs s' Hrun.
  - discriminate Hrun.
  - destruct (chain_step a fuel results input context s)
      as (s1 & Hstep & Hc1 & _ & _ & Hn1).
    rewrite Hstep in Hrun. clear Hstep.
    set (e := envelope a (clock s) _) in *.
    set (c := mkCall a input context _ e) in *.
    destruct (success e) eqn:Hs.
    + destruct (next_agent s !! aref a) as [b|] eqn:Hnx.
      * apply IH in Hrun
          as (new & cs & -> & Hcalls & Hres & Hhd & Hfl & Hctx & Hin & Hfail
              & Hlast & Hn).
        exists (e :: new), (c :: cs).
        split; [by rewrite <- app_assoc|].
        split; [by rewrite Hcalls, Hc1, <- app_assoc|].
        split; [simpl; by rewrite Hres|].
        split; [done|].
        split.
        { rewrite Hn1 in Hfl.
          destruct cs as [|c' cs]; [done|]. simpl in Hhd.
          injection Hhd as Hhd. rewrite <- Hhd in Hnx.
          split; [exact Hnx|exact Hfl]. }
        split; [by constructor|].
        split; [simpl; by rewrite Hin|].
        split.
        { intros [|i] e' He' Hf; simpl in *.
          - injection He' as <-. congruence.
          - f_equal. eauto. }
        split; [|by rewrite Hn].
        intros c' Hl Hsc. rewrite <- Hn1. apply Hlast; [|done].
        destruct cs as [|c0 cs]; [|by rewrite last_cons_cons in Hl].
        simpl in Hhd. done.
      * rewrite chain_loop_end in Hrun. injection Hrun as <- <-.
        exists [e], [c]. repeat split; try done.
        -- by repeat constructor.
        -- intros [|i] e' He' Hf; simpl in *; [congruence|done].
        -- intros c' [= <-] _. done.
    + injection Hrun as <- <-.
      exists [e], [c]. repeat split; try done.
      * by repeat constructor.
      * intros [|i] e' He' Hf; simpl in *; [done|done].
      * intros c' [= <-] Hsc. simpl in Hsc. congruence.
Qed.

(** X8. Whenever [execute_chain] returns, it has called the head first and
    then, after each successful envelope, the successor linked to the agent
    just called; every call was passed the caller's context object itself
    and, as input, the data of the envelope before it; the envelopes
    returned are those of the calls, there is at least one, only the last
    can be a failed one, and when the last is successful its agent has no
    successor. *)
Theorem execute_chain_follows_links (fuel : nat) a (input : value) context s
    (rs : list AgentResult) s' :
  execute_chain fuel a input context s = (inr (Some rs), s') ->
  exists cs,
    calls s' = calls s ++ cs /\
    map c_result cs = rs /\
    rs <> [] /\
    head (map c_agent cs) = Some a /\
    follows_links (next_agent s) cs /\
    Forall (fun c => c_context c = context) cs /\
    map c_input cs = take (length rs) (input :: map data rs) /\
    (forall i e, rs !! i = Some e -> success e = false -> S i = length rs) /\
    (forall c, last cs = Some c -> success (c_result c) = true ->
       next_agent s !! aref (c_agent c) = None).
Proof.
  intros Hrun. unfold execute_chain in Hrun.
  apply chain_loop_spec in Hrun
    as (new & cs & -> & Hcalls & Hres & Hhd & Hfl & Hctx & Hin & Hfail
        & Hlast & _).
  exists cs. simpl. repeat split; try done.
  intros ->. destruct cs; [done|]. done.
Qed.

Lemma envelope_success a (t0 : Q) (r : run W) (v : value) :
  completed_in_time a r = Some v ->
  success (envelope a t0 r) = true /\ data (envelope a t0 r) = v.
Proof.
  unfold completed_in_time, envelope.
  destruct (overruns a r); [done|].
  destruct (completion r) as [[|c m]|v']; [done|done|].
  intros [= ->]. done.
Qed.

Lemma endless_next s s' (cyc : agent W -> Prop) :
  next_agent s' = next_agent s -> endless s cyc -> endless s' cyc.
Proof.
  intros Hn Hcyc a Ha. destruct (Hcyc a Ha) as [Hok (b & Hb & Hcb)].
  split; [done|]. exists b. by rewrite Hn.
Qed.

Lemma chain_loop_endless (fuel : nat) :
  forall (cyc : agent W -> Prop) a (results : list AgentResult)
         (input : value) context s,
    endless s cyc -> cyc a ->
    fst (chain_loop fuel (Some a) results input context s) = inr None.
Proof.
  induction fuel as [|fuel IH]; intros cyc a results input context s Hcyc Ha.
  - done.
  - destruct (chain_step a fuel results input context s)
      as (s1 & Hstep & _ & _ & _ & Hn1).
    rewrite Hstep. clear Hstep.
    destruct (Hcyc a Ha) as [Hok (b & Hb & Hcb)].
    destruct (Hok input (passed_content context s) (world s)) as [v Hv].
    apply (envelope_success a (clock s)) in Hv as [Hs _].
    unfold core_run. rewrite Hs, Hb.
    apply (IH cyc); [|done]. by apply (endless_next s).
Qed.

(** X9. [execute_chain] has no guard against cycles: from an agent of a set
    of agents that all have a successor in the set and whose computations
    always return in time, the loop never ends, whatever the number of
    iterations allowed. *)
Theorem execute_chain_loops_on_cycle (cyc : agent W -> Prop) a (fuel : nat)
    (input : value) context s :
  endless s cyc -> cyc a ->
  fst (execute_chain fuel a input context s) = inr None.
Proof. intros Hcyc Ha. by apply (chain_loop_endless fuel cyc). Qed.

(** X10. [then] returns the agent it links, so [a.then(b).then(c)] links
    [a] to [b] and [b] to [c]: with three distinct agents, of which [c] has
    no successor, the result is the chain [a -> b -> c], and nothing but the
    links has changed. *)
Theorem then_builds_chain a (b c : agent W) s :
  aref a <> aref b -> aref b <> aref c -> aref a <> aref c ->
  next_agent s !! aref c = None ->
  exists s',
    (b' <- then_ a b ;; then_ b' c) s = (inr c, s') /\
    linked s' a [b; c] /\
    dicts s' = dicts s /\ agent_context s' = agent_context s /\
    calls s' = calls s.
Proof.
  intros Hab Hbc Hac Hc.
  unfold then_, bind, modify, ret. eexists. split; [reflexivity|].
  simpl. repeat split.
  - rewrite lookup_insert_ne by done. apply lookup_insert_eq.
  - apply lookup_insert_eq.
  - by rewrite !lookup_insert_ne.
Qed.

End MoreChain.

Section SharedContext.

Context {W : Type}.

Implicit Types (s : state W) (a : agent W) (context : option loc).

Lemma chain_loop_calls (fuel : nat) :
  forall (current : option (agent W)) (results : list AgentResult)
         (input : value) context s,
    exists cs,
      calls (snd (chain_loop fuel current results input context s))
      = calls s ++ cs.
Proof.
  induction fuel as [|fuel IH]; intros [a|] results input context s;
    try (exists []; simpl; by rewrite app_nil_r).
  destruct (chain_step a fuel results input context s)
    as (s1 & Hstep & Hc1 & _).
  rewrite Hstep. destruct (success _).
  - destruct (IH (next_agent s !! aref a) (results ++
        [envelope a (clock s) (core_run a input context s)])
        (data (envelope a (clock s) (core_run a input context s)))
        context s1) as [cs Hcs].
    eexists. rewrite Hcs, Hc1, <- app_assoc. reflexivity.
  - simpl. eexists. exact Hc1.
Qed.

Lemma chain_loop_unfold (fuel : nat) a (results : list AgentResult)
    (input : value) context :
  chain_loop (S fuel) (Some a) results input context =
  (result <- execute a input context ;;
   if negb (success result) then ret (Some (results ++ [result]))
   else next <- get_next_agent a ;;
        chain_loop fuel next (results ++ [result]) (data result) context).
Proof. reflexivity. Qed.

(** X11. In a chain run under a non-empty context, the successor of the
    head is passed the same dict object as the head, holding what the
    head's computation left in it: what one agent writes into its context
    is seen by the next. *)
Theorem execute_chain_shares_context a (b : agent W) (fuel : nat)
    (input v : value) (l : loc) (p : string * value) (d : dict) s :
  next_agent s !! aref a = Some b ->
  dicts s !! l = Some (p :: d) ->
  completed_in_time a (_execute a input (p :: d) (world s)) = Some v ->
  exists c1 c2 cs,
    calls (snd (execute_chain (S (S fuel)) a input (Some l) s))
    = calls s ++ c1 :: c2 :: cs /\
    c_agent c1 = a /\ c_context c1 = Some l /\ c_passed c1 = p :: d /\
    c_agent c2 = b /\ c_context c2 = Some l /\ c_input c2 = v /\
    c_passed c2 = context_after (_execute a input (p :: d) (world s)).
Proof.
  intros Hnx Hd Hv.
  assert (core_run a input (Some l) s = _execute a input (p :: d) (world s))
    as Hr by (unfold core_run, passed_content; by rewrite Hd).
  assert (bound_loc (Some l) s = l) as Hbl
    by (unfold bound_loc; by rewrite Hd).
  destruct (execute_returns a input (Some l) s) as [lg Hex].
  pose proof (heap_after_bound (Some l) s (core_run a input (Some l) s)) as Hb.
  rewrite Hr, Hbl in *.
  set (r1 := _execute a input (p :: d) (world s)) in *.
  apply (envelope_success a (clock s)) in Hv as [Hs Hdata].
  unfold execute_chain. rewrite chain_loop_unfold.
  unfold bind at 1. rewrite Hex. clear Hex.
  rewrite Hs. cbn [negb].
  unfold bind at 1, get_next_agent, gets. cbn [next_agent]. rewrite Hnx.
  set (s1 := mkState _ _ _ _ _ _ _ _ _).
  set (e1 := envelope a (clock s) r1) in *.
  destruct (chain_step b fuel [e1] (data e1) (Some l) s1)
    as (s2 & Hstep & Hc2 & _).
  cbn [app]. rewrite Hstep. clear Hstep.
  assert (passed_content (Some l) s1 = context_after r1) as Hp
    by (unfold passed_content, s1; simpl; by rewrite Hb).
  rewrite Hp in Hc2.
  destruct (success (envelope b (clock s1)
                       (core_run b (data e1) (Some l) s1))).
  - match goal with
    | |- context [chain_loop fuel ?n ?r ?i ?c ?st] =>
        destruct (chain_loop_calls fuel n r i c st) as [cs Hcs]
    end.
    eexists _, _, cs. split.
    { rewrite Hcs, Hc2. unfold s1; simpl. rewrite <- !app_assoc. reflexivity. }
    unfold passed_content. rewrite Hd. simpl. by repeat split.
  - eexists _, _, []. split.
    { simpl. rewrite Hc2. unfold s1; simpl. rewrite <- !app_assoc.
      reflexivity. }
    unfold passed_content. rewrite Hd. simpl. by repeat split.
Qed.

End SharedContext.

(** ** The reduce input *)

Section ReduceInput.

Lemma dict_keys_set_elem (d : dict) (k k' : string) (v : value) :
  k' ∈ dict_keys (dict_set d k v) <-> k' = k \/ k' ∈ dict_keys d.
Proof.
  unfold dict_keys. induction d as [|[k0 v0] d IH]; simpl.
  - rewrite list_elem_of_singleton. split; [by left|].
    intros [?|H]; [done|]. by apply not_elem_of_nil in H.
  - destruct (String.eqb k0 k) eqn:E; simpl.
    + apply String.eqb_eq in E. subst k0.
      rewrite elem_of_cons. split; [by right|]. intros [->|?]; [by left|done].
    + rewrite !elem_of_cons, IH. tauto.
Qed.

Lemma dict_keys_set_NoDup (d : dict) (k : string) (v : value) :
  NoDup (dict_keys d) -> NoDup (dict_keys (dict_set d k v)).
Proof.
  unfold dict_keys. induction d as [|[k0 v0] d IH]; simpl; intros Hnd.
  - apply NoDup_singleton.
  - apply NoDup_cons in Hnd as [Hk0 Hnd].
    destruct (String.eqb k0 k) eqn:E; simpl.
    + apply NoDup_cons. done.
    + apply NoDup_cons. split; [|by apply IH].
      intros Hin. apply (dict_keys_set_elem d k k0 v) in Hin as [->|Hin].
      * by rewrite String.eqb_refl in E.
      * done.
Qed.

Lemma metadata_by_name_snoc (rs : list AgentResult) (r : AgentResult) :
  metadata_by_name (rs ++ [r])
  = dict_set (metadata_by_name rs) (agent_name r) (VDict (metadata r)).
Proof. unfold metadata_by_name. by rewrite fold_left_app. Qed.

(** X12. The mapping from agent names to metadata that the reducer
    receives has one entry per distinct name; under a name shared by
    several successful envelopes it holds the metadata of the last of
    them, and it has no entry under any other name. *)
Theorem metadata_by_name_last_wins (rs : list AgentResult) (n : string) :
  NoDup (dict_keys (metadata_by_name rs)) /\
  dict_get (metadata_by_name rs) n
  = (fun r => VDict (metadata r)) <$> last (named n rs).
Proof.
  induction rs as [|r rs IH] using rev_ind.
  - split; [apply NoDup_nil_2|done].
  - destruct IH as [Hnd Hget]. rewrite metadata_by_name_snoc.
    split; [by apply dict_keys_set_NoDup|].
    unfold named in *. rewrite List.filter_app. simpl.
    destruct (String.eqb (agent_name r) n) eqn:E.
    + apply String.eqb_eq in E. subst n.
      rewrite dict_get_set_eq. by rewrite last_snoc.
    + rewrite app_nil_r, <- Hget. apply dict_get_set_ne.
      intros ->. by rewrite String.eqb_refl in E.
Qed.

End ReduceInput.

(** ** More on the workflow driver and the status store *)

Section MoreDriver.

Context {W : Type}.

Implicit Types (s : state W) (a : agent W).

Lemma keeps_ret (P : state W -> Prop) {A : Type} (x : A) : keeps P (ret x).
Proof. unfold ret. intros s r s' HP [= _ <-]. done. Qed.

Lemma keeps_raise (P : state W -> Prop) {A : Type} (e : exn) :
  keeps P (raise (A:=A) e).
Proof. unfold raise. intros s r s' HP [= _ <-]. done. Qed.

Lemma keeps_bind (P : state W -> Prop) {A B : Type} (m : M W A)
    (k : A -> M W B) :
  keeps P m -> (forall x, keeps P (k x)) -> keeps P (bind m k).
Proof.
  intros Hm Hk s r s' HP Hrun. unfold bind in Hrun.
  destruct (m s) as [[e|x] s1] eqn:Hms.
  - injection Hrun as _ <-. eapply Hm; eauto.
  - eapply Hk; [|exact Hrun]. eapply Hm; eauto.
Qed.

Lemma keeps_try_except (P : state W -> Prop) {A : Type} (m : M W A)
    (h : exn -> M W A) :
  keeps P m -> (forall e, keeps P (h e)) -> keeps P (try_except m h).
Proof.
  intros Hm Hh s r s' HP Hrun. unfold try_except in Hrun.
  destruct (m s) as [[e|x] s1] eqn:Hms.
  - eapply Hh; [|exact Hrun]. eapply Hm; eauto.
  - injection Hrun as _ <-. eapply Hm; eauto.
Qed.

Lemma keeps_execute (P : state W -> Prop) a (input : value)
    (context : option loc) :
  tracker_only P -> keeps P (execute a input context).
Proof.
  intros HP s r s' Hs Hrun.
  destruct (execute_returns a input context s) as [lg Hex].
  rewrite Hex in Hrun. injection Hrun as _ <-. by apply (HP s).
Qed.

Lemma keeps_logger_error (P : state W -> Prop) (msg : string) :
  tracker_only P -> keeps P (logger_error msg).
Proof.
  unfold logger_error, modify. intros HP s r s' Hs [= _ <-]. by apply (HP s).
Qed.

Lemma keeps_check_success (P : state W -> Prop) (what : string)
    (e : AgentResult) :
  keeps P (check_success what e).
Proof.
  unfold check_success, raise_ResearchError.
  destruct (success e); simpl; [apply keeps_ret|apply keeps_raise].
Qed.

Lemma keeps_py_slice_to (P : state W -> Prop) (v : value) (n : Z) :
  keeps P (py_slice_to v n).
Proof. destruct v; first [apply keeps_ret | apply keeps_raise]. Qed.

Lemma keeps_py_len (P : state W -> Prop) (v : value) : keeps P (py_len v).
Proof. destruct v; first [apply keeps_ret | apply keeps_raise]. Qed.

Lemma keeps_py_get (P : state W -> Prop) (v : value) (k : string)
    (d : value) :
  keeps P (py_get v k d).
Proof. destruct v; first [apply keeps_ret | apply keeps_raise]. Qed.

(** [execute_research] preserves whatever its status updates preserve. *)
Lemma keeps_execute_research (P : state W -> Prop) (ags : research_agents)
    (research_id : string) (request : ResearchRequest) :
  tracker_only P ->
  (forall status progress message,
      keeps P (update_research_status research_id status progress message)) ->
  keeps P (execute_research ags research_id request).
Proof.
  intros HP Hup. unfold execute_research.
  apply keeps_try_except; [|intros e];
    repeat first
      [ apply keeps_ret
      | apply Hup
      | apply keeps_execute; exact HP
      | apply keeps_logger_error; exact HP
      | apply keeps_check_success
      | apply keeps_py_slice_to
      | apply keeps_py_len
      | apply keeps_py_get
      | apply keeps_bind; [|intros ?]
      | match goal with
        | |- keeps _ (if ?b then _ else _) => destruct b
        end ].
Qed.

(** X13. On a workflow id the store does not know, [execute_research] runs
    to its end without touching the store: every status update is a silent
    no-op, and no entry is created. *)
Theorem execute_research_unknown_id (ags : research_agents)
    (research_id : string) (request : ResearchRequest) s :
  research_storage s !! research_id = None ->
  research_storage (snd (execute_research ags research_id request s))
    = research_storage s /\
  writes (snd (execute_research ags research_id request s)) = writes s.
Proof.
  intros Hn.
  destruct (execute_research ags research_id request s) as [r s'] eqn:Hrun.
  apply (keeps_execute_research
           (fun s1 => research_storage s1 = research_storage s /\
                      writes s1 = writes s)
           ags research_id request) with (s := s) (r := r); [| |done|done].
  - intros s1 s2 Hst Hw [? ?]. split; congruence.
  - intros status progress message s1 r1 s2 [Hst Hw] Hup.
    rewrite update_research_status_unknown in Hup by (by rewrite Hst).
    injection Hup as _ <-. done.
Qed.


Lemma polled_tracker_only (research_id i : string) (t : Q) (st : string)
    (p : Z) (m : string) :
  tracker_only (W:=W) (polled research_id i t st p m).
Proof.
  intros s s' Hst _ (entry & u & He & H). exists entry, u. by rewrite Hst.
Qed.
















End MoreDriver.

Section DriverCalls.

Context {W : Type}.

Implicit Types (s : state W) (a : agent W).






End DriverCalls.

(** ** The web search agent *)

Section WebSearchFacts.

Context {W : Type}.

Variable search : value -> Z -> W -> search_reply (W:=W).
Variable warning : value -> exn -> W -> W.

Lemma unique_by_url_seen (l : list (list (string * string))) :
  forall seen,
    NoDup (map (fun r => sdict_get r "url") (unique_by_url l seen)) /\
    (forall r, r ∈ unique_by_url l seen -> sdict_get r "url" ∉ seen) /\
    sublist (unique_by_url l seen) l /\
    (forall r, r ∈ l ->
       sdict_get r "url" ∈ seen \/
       sdict_get r "url"
         ∈ map (fun r => sdict_get r "url") (unique_by_url l seen)).
Proof.
  induction l as [|x l IH]; intros seen; simpl.
  - repeat split; [apply NoDup_nil_2| |done|].
    + intros r Hr. by apply not_elem_of_nil in Hr.
    + intros r Hr. by apply not_elem_of_nil in Hr.
  - case_bool_decide as Hx.
    + destruct (IH seen) as (Hnd & Hns & Hsub & Hall).
      repeat split; [done|done|by apply sublist_cons|].
      intros r Hr. apply elem_of_cons in Hr as [->|Hr]; [by left|].
      by apply Hall.
    + destruct (IH (sdict_get x "url" :: seen)) as (Hnd & Hns & Hsub & Hall).
      repeat split.
      * simpl. apply NoDup_cons. split; [|done].
        intros Hin. apply list_elem_of_In, in_map_iff in Hin
          as (r & Hu & Hr).
        apply list_elem_of_In, Hns in Hr. apply Hr. rewrite Hu. by left.
      * intros r Hr. apply elem_of_cons in Hr as [->|Hr]; [done|].
        apply Hns in Hr. intros Hin. apply Hr. by right.
      * by apply sublist_skip.
      * intros r Hr. simpl. apply elem_of_cons in Hr as [->|Hr].
        -- right. by left.
        -- destruct (Hall r Hr) as [Hin|Hin].
           ++ apply elem_of_cons in Hin as [->|Hin]; [|by left].
              right. by left.
           ++ right. by right.
Qed.


(** X16. The removal of duplicates in [WebSearchAgent._execute] keeps the
    results in their order, keeps exactly one result (the first) for each
    URL that occurs, results without a URL counting as having the same
    one. *)
Theorem unique_by_url_spec (l : list (list (string * string))) :
  NoDup (map (fun r => sdict_get r "url") (unique_by_url l [])) /\
  sublist (unique_by_url l []) l /\
  forall r, r ∈ l ->
    sdict_get r "url" ∈ map (fun r => sdict_get r "url") (unique_by_url l []).
Proof.
  destruct (unique_by_url_seen l []) as (Hnd & _ & Hsub & Hall).
  repeat split; [done|done|].
  intros r Hr. destruct (Hall r Hr) as [Hin|Hin]; [|done].
  by apply not_elem_of_nil in Hin.
Qed.



End WebSearchFacts.

(** ** The properties above at concrete agents and states *)

(** X1 at [mark], bound to the caller's dict. *)
Lemma set_context_then_get_witness :
  exists s',
    set_context marking "seen" (VBool true) s_ctx = (inr tt, s') /\
    get_context marking "seen" VNone s' = (inr (VBool true), s') /\
    forall (other : string) (d : value), other <> "seen" ->
      fst (get_context marking other d s') = fst (get_context marking other d s_ctx).
Proof.
  apply (set_context_then_get marking "seen" (VBool true) VNone s_ctx 0%nat).
  - reflexivity.
  - simpl. lia.
Defined.

(** X8 at the chain [double -> increment] on 5. *)
Lemma execute_chain_follows_links_witness :
  exists cs,
    calls (snd chain_demo) = calls s_linked ++ cs /\
    map c_result cs = chain_demo_results /\
    chain_demo_results <> [] /\
    head (map c_agent cs) = Some double /\
    follows_links (next_agent s_linked) cs /\
    Forall (fun c => c_context c = None) cs /\
    map c_input cs
    = take (length chain_demo_results)
        (VInt 5 :: map data chain_demo_results) /\
    (forall i e, chain_demo_results !! i = Some e -> success e = false ->
       S i = length chain_demo_results) /\
    (forall c, last cs = Some c -> success (c_result c) = true ->
       next_agent s_linked !! aref (c_agent c) = None).
Proof.
  apply (execute_chain_follows_links 2 double (VInt 5) None s_linked
           chain_demo_results (snd chain_demo)).
  vm_compute. reflexivity.
Defined.

(** X9 at [mark.then(mark)]: a hundred iterations do not end the chain. *)
Lemma execute_chain_loops_on_cycle_witness :
  fst (execute_chain 100 marking (VInt 1) None s_cycle) = inr None.
Proof.
  apply (execute_chain_loops_on_cycle (fun a => a = marking) marking 100
           (VInt 1) None s_cycle).
  - intros a ->. split.
    + intros input c w. exists input. reflexivity.
    + exists marking. split; reflexivity.
  - reflexivity.
Defined.

(** X10 at [double.then(increment).then(mark)]. *)
Lemma then_builds_chain_witness :
  exists s',
    (b' <- then_ double increment ;; then_ b' marking) s0 = (inr marking, s') /\
    linked s' double [increment; marking] /\
    dicts s' = dicts s0 /\ agent_context s' = agent_context s0 /\
    calls s' = calls s0.
Proof.
  apply (then_builds_chain double increment marking s0).
  - simpl. lia.
  - simpl. lia.
  - simpl. lia.
  - reflexivity.
Defined.

(** X11 at [mark.then(double)] under the caller's dict: [double] is passed
    the dict with the key [mark] has written. *)
Lemma execute_chain_shares_context_witness :
  exists c1 c2 cs,
    calls (snd (execute_chain 2 marking (VInt 5) (Some 0%nat) s_mark_chain))
    = calls s_mark_chain ++ c1 :: c2 :: cs /\
    c_agent c1 = marking /\ c_context c1 = Some 0%nat /\
    c_passed c1 = [("user", VStr "u1")] /\
    c_agent c2 = double /\ c_context c2 = Some 0%nat /\
    c_input c2 = VInt 5 /\
    c_passed c2
    = context_after (_execute marking (VInt 5) [("user", VStr "u1")]
                       (world s_mark_chain)).
Proof.
  apply (execute_chain_shares_context marking double 0 (VInt 5) (VInt 5)
           0%nat ("user", VStr "u1") [] s_mark_chain).
  - reflexivity.
  - reflexivity.
  - reflexivity.
Defined.

(** X13 at a workflow id that was never registered. *)
Lemma execute_research_unknown_id_witness :
  research_storage (snd (execute_research demo_agents "r2" demo_request
                           s_research))
    = research_storage s_research /\
  writes (snd (execute_research demo_agents "r2" demo_request s_research))
    = writes s_research.
Proof.
  apply (execute_research_unknown_id demo_agents "r2" demo_request s_research).
  unfold s_research, set_research_storage. cbn [research_storage].
  rewrite lookup_insert_ne by done. reflexivity.
Defined.



(** The web search agent on the example: the topic and the first three
    questions are searched, the failed search is skipped, and the result
    common to the three others is kept once. *)
Example web_search_demo :
  completion (web_search_run demo_search demo_warning demo_params [] 0%nat)
  = inr (VList (map sdict_value
          [[("url", "https://example.com/rust"); ("title", "rust")];
           [("url", "https://example.com/common"); ("title", "rust")];
           [("url", "https://example.com/borrowing"); ("title", "borrowing")];
           [("url", "https://example.com/lifetimes"); ("title", "lifetimes")]])).
Proof. vm_compute. reflexivity. Qed.

(** * The asynchronous model: properties *)

(** ** [asyncio.wait_for] *)

Section WaitFor.

Import Async.

Context {W : Type}.

Implicit Types (k : coro W) (l : loc) (h : list object) (w : W) (t T : Q).

Lemma completion_complete k :
  forall l h w t t',
    completion (complete k l h w t) = completion (complete k l h w t') /\
    heap_after (complete k l h w t) = heap_after (complete k l h w t') /\
    world_after (complete k l h w t) = world_after (complete k l h w t').
Proof.
  induction k using coro_step_ind with
    (P0 := fun st =>
       match st with
       | Done _ _ _ _ => True
       | Await _ h' w' _ resume _ =>
           forall l t t',
             completion (complete resume l h' w' t)
             = completion (complete resume l h' w' t') /\
             heap_after (complete resume l h' w' t)
             = heap_after (complete resume l h' w' t') /\
             world_after (complete resume l h' w' t)
             = world_after (complete resume l h' w' t')
       end).
  - intros l h w t t'. cbn [complete].
    specialize (H l h w). destruct (body l h w); [done|]. apply H.
  - done.
  - intros l t t'. apply IHk1.
Qed.

(** A coroutine that wakes up from every suspension before the timer is
    due runs as if there were no timer. *)
Lemma awaited_in_time k :
  forall l h w t T,
    Forall (fun u => (u < T)%Q) (wakes k l h w t) ->
    awaited T k l h w t = complete k l h w t.
Proof.
  induction k using coro_step_ind with
    (P0 := fun st =>
       match st with
       | Done _ _ _ _ => True
       | Await _ h' w' _ resume _ =>
           forall l t T,
             Forall (fun u => (u < T)%Q) (wakes resume l h' w' t) ->
             awaited T resume l h' w' t = complete resume l h' w' t
       end).
  - intros l h w t T Hw. cbn [awaited complete wakes] in *.
    specialize (H l h w). destruct (body l h w); [done|].
    apply Forall_cons in Hw as [Hu Hw].
    destruct (Qle_bool T (t + busy + secs wait)) eqn:E.
    + apply Qle_bool_iff in E. apply Qlt_not_le in Hu. done.
    + by apply H.
  - done.
  - intros l t T Hw. by apply IHk1.
Qed.

(** A coroutine that is suspended when the timer is due, and through
    which a cancellation comes out, makes [wait_for] raise
    [TimeoutError]. *)
Lemma awaited_cancelled k :
  forall l h w t T,
    Exists (fun u => (T <= u)%Q) (wakes k l h w t) ->
    lets_cancel_through k l h w ->
    completion (awaited T k l h w t) = inl (Exc TimeoutError).
Proof.
  induction k using coro_step_ind with
    (P0 := fun st =>
       match st with
       | Done _ _ _ _ => True
       | Await _ h' w' _ resume _ =>
           forall l t T,
             Exists (fun u => (T <= u)%Q) (wakes resume l h' w' t) ->
             lets_cancel_through resume l h' w' ->
             completion (awaited T resume l h' w' t) = inl (Exc TimeoutError)
       end).
  - intros l h w t T Hw Hc. cbn [awaited wakes lets_cancel_through] in *.
    specialize (H l h w). destruct (body l h w); [by apply Exists_nil in Hw|].
    destruct Hc as [Hc1 Hc2].
    destruct (Qle_bool T (t + busy + secs wait)) eqn:E.
    + unfold after_cancel.
      destruct (completion_complete cancelled l h0 w0
                  (if Qle_bool T (t + busy) then (t + busy)%Q else T) 0)
        as (-> & _).
      by rewrite Hc1.
    + apply Exists_cons in Hw as [Hu|Hw].
      * apply Qle_bool_iff in Hu. congruence.
      * by apply H.
  - done.
  - intros l t T Hw Hc. by apply IHk1.
Qed.

End WaitFor.

(** ** [BaseAgent.execute] *)

Section Execute.

Import Async.

Context {W : Type}.

Implicit Types (s : state W) (a : agent W) (context : option loc).

Lemma set_heap_same s : set_heap (heap s) s = s.
Proof. by destruct s. Qed.

Lemma async_or_empty_eq context s :
  or_empty context s
  = (inr (bound_loc context s), set_heap (heap_bound context s) s).
Proof.
  unfold or_empty, bound_loc, heap_bound, new_dict.
  destruct context as [l|]; simpl.
  - unfold bind, read_dict, gets, ret, dict_at.
    destruct (heap s !! l) as [[d|items]|] eqn:Hl; simpl;
      try by rewrite decide_True.
    destruct d as [|p d]; simpl; [by rewrite decide_True|].
    apply lookup_lt_Some in Hl.
    rewrite decide_False by lia. by rewrite set_heap_same.
  - by rewrite decide_True.
Qed.

(** [execute] in one equation: what it gives is the envelope of the
    awaited run, or the exception no handler catches; the call is recorded
    when it returns. *)
Lemma async_execute_returns a (input : value) context s :
  let l := bound_loc context s in
  let r := awaited_run a input context s in
  exists lg,
    execute a input context s =
    (envelope a (clock s) l r,
     mkState (heap_after r) (<[aref a := l]> (agent_context s))
       (world_after r) (clock s + elapsed r)%Q lg
       (calls s ++
          match envelope a (clock s) l r with
          | inr env => [mkCall a input context (passed_content context s) env]
          | inl _ => []
          end)
       (views s ++
          if (timeout a <=? 0)%Z then []
          else [mkView a l (content (heap_bound context s) l)])).
Proof.
  intros l r.
  unfold execute, execute_wrapper.
  unfold bind at 1. unfold gets at 1.
  unfold bind at 1. unfold bind at 1. unfold time at 1, gets at 1.
  unfold bind at 1. rewrite async_or_empty_eq. fold l.
  unfold envelope. subst r. unfold awaited_run. fold l.
  set (r := wait_for_run _ _ _ _ _).
  destruct s as [h0 ac w ck lg cs vs]. simpl in *.
  cbv beta iota delta [try_except bind assign_context logger_info logger_error
    log_agent_action modify time gets ret wait_for _get_metadata
    self_context read_dict raise handlers on_success on_timeout on_exception
    set_heap set_agent_context set_world set_clock set_log set_calls
    set_views heap agent_context world clock log calls views]; simpl.
  rewrite !lookup_insert_eq. simpl. fold r.
  destruct (timeout a <=? 0)%Z; simpl;
    (destruct (completion r) as [[[|c m]| |c m]|v] eqn:Hcp; simpl;
     rewrite ?lookup_insert_eq; simpl; rewrite ?app_nil_r;
     eexists; reflexivity).
Qed.

End Execute.

Section ExecuteFacts.

Import Async.

Context {W : Type}.

Implicit Types (s : state W) (a : agent W) (context : option loc).

(** What the [await] of [execute] gives, from what the computation does
    when it is left alone. *)
Lemma awaited_run_spec a (input : value) context s :
  let r := awaited_run a input context s in
  let T := inject_Z (timeout a) in
  ((0 < timeout a)%Z ->
   Forall (fun u => (u < T)%Q) (wake_times a input context s) ->
   r = left_alone a input context s) /\
  ((0 < timeout a)%Z ->
   Exists (fun u => (T <= u)%Q) (wake_times a input context s) ->
   lets_cancel_through (_execute a input) (bound_loc context s)
     (heap_bound context s) (world s) ->
   completion r = inl (Exc TimeoutError)) /\
  ((timeout a <= 0)%Z ->
   completion r = inl (Exc TimeoutError) /\
   heap_after r = heap_bound context s /\ world_after r = world s).
Proof.
  intros r T. split; [|split].
  - intros HT Hw. unfold r, awaited_run, wait_for_run.
    destruct (Z.leb_spec (timeout a) 0) as [?|_]; [lia|].
    by apply awaited_in_time.
  - intros HT Hw Hc. unfold r, awaited_run, wait_for_run.
    destruct (Z.leb_spec (timeout a) 0) as [?|_]; [lia|].
    by apply awaited_cancelled.
  - intros HT. unfold r, awaited_run, wait_for_run.
    destruct (Z.leb_spec (timeout a) 0) as [_|?]; [done|lia].
Qed.

(** C1, as amended.  [execute] returns an envelope unless the awaited
    computation ends with an exception that is not an instance of
    [Exception], which [execute] lets through to its caller.  The envelope
    has [success] true, [data] the returned value and [error] null exactly
    when [asyncio.wait_for] gave that value, and otherwise [success] false,
    [data] null and [error] a message.  What [wait_for] gives: with a
    positive timeout, what the computation itself returns or raises when it
    wakes up from each of its suspensions before the timeout has elapsed,
    however long it then runs without suspending; [TimeoutError] when the
    timeout elapses during one of its suspensions and the cancellation
    comes out of it; with a timeout that is not positive, [TimeoutError],
    the computation never having started. *)
Theorem execute_envelope a (input : value) context s :
  let r := awaited_run a input context s in
  let T := inject_Z (timeout a) in
  match completion r with
  | inr v =>
      exists env s',
        execute a input context s = (inr env, s') /\
        success env = true /\ data env = v /\ error env = None
  | inl (Exc e) =>
      exists env s' msg,
        execute a input context s = (inr env, s') /\
        success env = false /\ data env = VNone /\ error env = Some msg
  | inl e => exists s', execute a input context s = (inl e, s')
  end /\
  ((0 < timeout a)%Z ->
   Forall (fun u => (u < T)%Q) (wake_times a input context s) ->
   r = left_alone a input context s) /\
  ((0 < timeout a)%Z ->
   Exists (fun u => (T <= u)%Q) (wake_times a input context s) ->
   lets_cancel_through (_execute a input) (bound_loc context s)
     (heap_bound context s) (world s) ->
   completion r = inl (Exc TimeoutError)) /\
  ((timeout a <= 0)%Z ->
   completion r = inl (Exc TimeoutError) /\
   heap_after r = heap_bound context s /\ world_after r = world s).
Proof.
  intros r T. split; [|apply awaited_run_spec].
  destruct (async_execute_returns a input context s) as [lg Hex].
  fold r in Hex. unfold envelope in Hex.
  destruct (completion r) as [[[|c m]| |c m]|v]; eauto 10.
Qed.

(** X2. The error of a failed envelope is the fixed message naming the
    agent's timeout when [wait_for] raised [TimeoutError]: the timeout is
    not positive, or it elapsed during a suspension of the computation, or
    the computation raised [asyncio.TimeoutError] itself.  It is the
    message of the exception, verbatim, when the computation, waking up
    from each of its suspensions before the timeout has elapsed, raised
    another instance of [Exception], however late. *)
Theorem execute_error_message a (input : value) context s :
  let alone := left_alone a input context s in
  let T := inject_Z (timeout a) in
  let timed_out :=
    Some ("Agent execution timed out after " +:+ pretty (timeout a) +:+ "s") in
  let suspended_at_deadline :=
    Exists (fun u => (T <= u)%Q) (wake_times a input context s) /\
    lets_cancel_through (_execute a input) (bound_loc context s)
      (heap_bound context s) (world s) in
  let never_suspended_at_deadline :=
    Forall (fun u => (u < T)%Q) (wake_times a input context s) in
  exists res s',
    execute a input context s = (res, s') /\
    ((timeout a <= 0)%Z ->
     exists env, res = inr env /\ error env = timed_out) /\
    ((0 < timeout a)%Z -> suspended_at_deadline ->
     exists env, res = inr env /\ error env = timed_out) /\
    ((0 < timeout a)%Z -> never_suspended_at_deadline ->
     completion alone = inl (Exc TimeoutError) ->
     exists env, res = inr env /\ error env = timed_out) /\
    (forall cls msg,
       (0 < timeout a)%Z -> never_suspended_at_deadline ->
       completion alone = inl (Exc (Error cls msg)) ->
       exists env, res = inr env /\ error env = Some msg).
Proof.
  intros alone T timed_out Hsusp Hnever.
  destruct (async_execute_returns a input context s) as [lg Hex].
  destruct (awaited_run_spec a input context s) as (Hin & Hout & Hzero).
  set (r := awaited_run a input context s) in *.
  eexists _, _. split; [exact Hex|]. unfold envelope.
  repeat split.
  - intros HT. destruct (Hzero HT) as (-> & _). eauto.
  - intros HT [Hw Hc]. rewrite (Hout HT Hw Hc). eauto.
  - intros HT Hw Ha. rewrite (Hin HT Hw). fold alone. rewrite Ha. eauto.
  - intros cls msg HT Hw Ha. rewrite (Hin HT Hw). fold alone. rewrite Ha.
    eauto.
Qed.

(** X3. A call of [execute] that returns has appended to the log exactly
    one agent-action record, last, which carries the agent's name and the
    duration, the success flag and the error of the envelope returned; a
    call that raises has appended no agent-action record. *)
Theorem execute_logs_one_action a (input : value) context s :
  exists res s' pre,
    execute a input context s = (res, s') /\
    Forall (fun r => is_action r = false) pre /\
    match res with
    | inr env =>
        log s' = log s ++ pre ++
          [LogAction (name a) "execute" (duration_ms env) (success env)
             (error env)]
    | inl _ => log s' = log s ++ pre
    end.
Proof.
  unfold execute, execute_wrapper.
  unfold bind at 1. unfold gets at 1.
  unfold bind at 1. unfold bind at 1. unfold time at 1, gets at 1.
  unfold bind at 1. rewrite async_or_empty_eq.
  set (l := bound_loc context s).
  set (r := wait_for_run (timeout a) (_execute a input) l
              (heap_bound context s) (world s)).
  destruct s as [h0 ac w ck lg cs vs]. simpl in *.
  cbv beta iota delta [try_except bind assign_context logger_info logger_error
    log_agent_action modify time gets ret wait_for _get_metadata
    self_context read_dict raise handlers on_success on_timeout on_exception
    set_heap set_agent_context set_world set_clock set_log set_calls
    set_views heap agent_context world clock log calls views]; simpl.
  rewrite !lookup_insert_eq. simpl. fold r.
  destruct (timeout a <=? 0)%Z; simpl;
    (destruct (completion r) as [[[|c m]| |c m]|v] eqn:Hcp; simpl;
     rewrite ?lookup_insert_eq; simpl;
     [ eexists _, _, [_]
     | eexists _, _, [_; _]
     | eexists _, _, [_]
     | eexists _, _, [_]
     | eexists _, _, [_] ];
     (split; [reflexivity|]); simpl;
     (split; [|rewrite <- ?app_assoc; reflexivity]);
     by repeat constructor).
Qed.

End ExecuteFacts.

(** ** The wrapper at concrete computations *)

Section ExecuteExamples.

Import Async.

(** C1 fails as stated.  A computation that raises
    [asyncio.CancelledError] makes [execute] raise it; and a computation
    that runs for 45 seconds without suspending, under a timeout of 30
    seconds, gets a successful envelope although it did not return within
    the deadline. *)
Lemma execute_raises_and_accepts_late_results :
  ~ never_raises cancelling (VInt 1) None async_s0 /\
  ~ never_raises blocking (VInt 1) None async_s0.
Proof.
  split.
  - intros (env & s' & Hrun & _). vm_compute in Hrun. discriminate.
  - intros (env & s' & Hrun & Hm).
    remember (returned_within_deadline blocking
                (left_alone blocking (VInt 1) None async_s0)) as p eqn:Hp in Hm.
    vm_compute in Hp. subst p.
    vm_compute in Hrun. injection Hrun as <- _.
    destruct Hm as [Hs _]. discriminate.
Qed.

(** What [execute] gives at the two computations above, at a computation
    that blocks and then raises, at one that is suspended when the timeout
    elapses, and at one whose timeout is 0. *)
Example execute_cancelling :
  fst (execute cancelling (VInt 1) None async_s0) = inl CancelledError.
Proof. vm_compute. reflexivity. Qed.

Example execute_blocking :
  fst (execute blocking (VInt 1) None async_s0)
  = inr (mkAgentResult "block" true (VInt 1) None 45000
           [("agent_id", VStr "block_5e8d01aa"); ("context_keys", VList [])]).
Proof. vm_compute. reflexivity. Qed.

Example execute_blocking_failing :
  fst (execute blocking_failing (VInt 1) None async_s0)
  = inr (mkAgentResult "blockfail" false VNone (Some "x") 45000
           [("agent_id", VStr "blockfail_a07c3d52");
            ("context_keys", VList [])]).
Proof. vm_compute. reflexivity. Qed.

Example execute_sleeping :
  fst (execute sleeping (VInt 1) None async_s0)
  = inr (mkAgentResult "sleep" false VNone
           (Some "Agent execution timed out after 30s") 30000
           [("agent_id", VStr "sleep_c2b9f410"); ("context_keys", VList [])]).
Proof. vm_compute. reflexivity. Qed.

Example execute_hurried :
  execute hurried (VInt 1) None async_s0
  = (inr (mkAgentResult "hurry" false VNone
            (Some "Agent execution timed out after 0s") 0
            [("agent_id", VStr "hurry_70d1e8c6"); ("context_keys", VList [])]),
     mkState [ODict []] {[ 5%nat := 0%nat ]} 0%nat 0%Q
       [LogInfo "Agent hurry starting execution";
        LogAction "hurry" "execute" 0 false
          (Some "Agent execution timed out after 0s")]
       [mkCall hurried (VInt 1) None []
          (mkAgentResult "hurry" false VNone
             (Some "Agent execution timed out after 0s") 0
             [("agent_id", VStr "hurry_70d1e8c6");
              ("context_keys", VList [])])]
       []).
Proof. vm_compute. reflexivity. Qed.

End ExecuteExamples.

(** ** [asyncio.gather] and [execute_parallel] *)

Section Gather.

Import Async.

Context {W : Type}.

Implicit Types (s : state W) (a : agent W) (context : option loc).

(** *** The three steps of a task *)

Lemma execute_begin_eq a context s :
  execute_begin a context s =
  (inr (clock s),
   mkState (heap_bound context s)
     (<[aref a := bound_loc context s]> (agent_context s)) (world s) (clock s)
     (log s ++ [LogInfo ("Agent " +:+ name a +:+ " starting execution")])
     (calls s) (views s)).
Proof.
  unfold execute_begin.
  unfold bind at 1. unfold time at 1, gets at 1.
  unfold bind at 1. rewrite async_or_empty_eq.
  by destruct s.
Qed.

Lemma execute_await_eq a (input : value) s (l : loc) :
  agent_context s !! aref a = Some l ->
  let r := wait_for_run (timeout a) (_execute a input) l (heap s) (world s) in
  execute_await a input s =
  (inr (completion r),
   mkState (heap_after r) (agent_context s) (world_after r)
     (clock s + elapsed r)%Q (log s) (calls s)
     (views s ++ if (timeout a <=? 0)%Z then []
                 else [mkView a l (content (heap s) l)])).
Proof.
  intros Hl r. unfold execute_await, attempt, wait_for.
  destruct s as [h0 ac w ck lg cs vs]. simpl in *.
  cbv beta iota delta [bind modify gets ret self_context raise
    set_heap set_agent_context set_world set_clock set_log set_calls
    set_views heap agent_context world clock log calls views]; simpl.
  rewrite Hl. simpl. fold r.
  destruct (timeout a <=? 0)%Z; simpl;
    destruct (completion r); simpl; by rewrite ?app_nil_r.
Qed.

Lemma execute_end_eq a (t0 : Q) (r : raised + value) s (l : loc) :
  agent_context s !! aref a = Some l ->
  match r with
  | inl CancelledError => False
  | inl (BaseExc _ _) => False
  | _ => True
  end ->
  exists env s',
    execute_end a t0 r s = (inr env, s') /\
    agent_name env = name a /\
    dict_get (metadata env) "agent_id" = Some (VStr (agent_id a)) /\
    heap s' = heap s /\ agent_context s' = agent_context s /\
    world s' = world s /\ calls s' = calls s /\ views s' = views s.
Proof.
  intros Hl Hr. unfold execute_end, handlers.
  destruct s as [h0 ac w ck lg cs vs]. simpl in *.
  destruct r as [[[|c m]| |c m]|v]; try done;
    cbv beta iota delta [on_success on_timeout on_exception bind modify gets
      ret self_context raise time logger_error log_agent_action _get_metadata
      read_dict set_heap set_agent_context set_world set_clock set_log
      set_calls set_views heap agent_context world clock log calls views];
    simpl; rewrite Hl; simpl; eexists _, _; by repeat split.
Qed.

(** *** The tasks *)

Lemma set_heap_twice (x y : list object) s :
  set_heap x (set_heap y s) = set_heap x s.
Proof. by destruct s. Qed.

Lemma make_tasks_spec (todo : list (agent W)) :
  forall (shared : loc) s,
    shared < length (heap s) ->
    make_tasks shared todo s =
    (inr (zip_with (fun a c => mkTask a c (dict_at (heap s) shared)) todo
            (seq (length (heap s)) (length todo))),
     set_heap (heap s ++
                 replicate (length todo) (ODict (dict_at (heap s) shared))) s).
Proof.
  induction todo as [|a rest IH]; intros shared s Hlt.
  - simpl. unfold ret. destruct s; simpl. by rewrite app_nil_r.
  - cbn [make_tasks]. unfold bind at 1.
    unfold copy_dict, bind, read_dict, gets, new_dict, ret. simpl.
    assert (dict_at (heap s ++ [ODict (dict_at (heap s) shared)]) shared
            = dict_at (heap s) shared) as Hsame
      by (unfold dict_at; by rewrite lookup_app_l).
    rewrite (IH shared).
    + simpl. rewrite Hsame.
      rewrite length_app, Nat.add_1_r, set_heap_twice.
      by rewrite <- app_assoc.
    + simpl. rewrite length_app. lia.
Qed.

Lemma lookup_tasks (todo : list (agent W)) (base i : nat) (d : bindings) :
  zip_with (fun a c => mkTask a c d) todo (seq base (length todo)) !! i
  = (fun a => mkTask a (base + i) d) <$> todo !! i.
Proof.
  revert base i. induction todo as [|a rest IH]; intros base i; [done|].
  destruct i as [|i]; simpl.
  - by rewrite Nat.add_0_r.
  - rewrite IH. by rewrite Nat.add_succ_r.
Qed.

(** *** The steps of the tasks *)

Lemma in_step_cons (phases : list phase) (ev : event) (rest : list event)
    (p q : phase) :
  in_step phases (ev :: rest) ->
  phases !! index ev = Some p ->
  steps_left (index ev) p = ev :: steps_left (index ev) q ->
  in_step (<[index ev := q]> phases) rest.
Proof.
  intros [Hidx Hst] Hp Hq. apply Forall_cons in Hidx as [Hj Hidx]. split.
  - by rewrite length_insert.
  - intros i p' Hi.
    destruct (decide (i = index ev)) as [->|Hne].
    + rewrite list_lookup_insert_eq in Hi by done. injection Hi as <-.
      specialize (Hst _ _ Hp). simpl in Hst. unfold concerns in Hst at 1.
      rewrite Nat.eqb_refl, Hq in Hst. by injection Hst.
    + rewrite list_lookup_insert_ne in Hi by done.
      specialize (Hst _ _ Hi). simpl in Hst. unfold concerns in Hst at 1.
      destruct (Nat.eqb_spec (index ev) i) as [?|_]; [congruence|done].
Qed.

Lemma in_step_head (phases : list phase) (ev : event) (rest : list event) :
  in_step phases (ev :: rest) ->
  exists p, phases !! index ev = Some p /\
            exists left, steps_left (index ev) p = ev :: left.
Proof.
  intros [Hidx Hst]. apply Forall_cons in Hidx as [Hj _].
  destruct (lookup_lt_is_Some_2 phases _ Hj) as [p Hp].
  exists p. split; [done|].
  specialize (Hst _ _ Hp). simpl in Hst. unfold concerns in Hst at 1.
  rewrite Nat.eqb_refl in Hst. eauto.
Qed.

Lemma finish_order_left (phases : list phase) (sched : list event) (i : nat)
    (p : phase) :
  in_step phases sched -> phases !! i = Some p ->
  i ∈ finish_order sched -> unfinished p = true.
Proof.
  intros [_ Hst] Hp Hin. specialize (Hst _ _ Hp).
  destruct p; try done. exfalso.
  unfold finish_order in Hin. apply list_elem_of_omap in Hin as (ev & Hev & Hi).
  destruct ev as [j|j|j]; try done. injection Hi as ->.
  assert (Finish i ∈ List.filter (concerns i) sched) as Hf.
  { apply list_elem_of_In, filter_In. split; [by apply list_elem_of_In|].
    unfold concerns. simpl. apply Nat.eqb_refl. }
  rewrite Hst in Hf. simpl in Hf. by apply not_elem_of_nil in Hf.
Qed.

Lemma unfinished_insert_same (phases : list phase) (j : nat) (p q : phase) :
  phases !! j = Some p -> unfinished p = unfinished q ->
  length (List.filter unfinished (<[j := q]> phases))
  = length (List.filter unfinished phases).
Proof.
  revert j. induction phases as [|x phases IH]; intros j Hp Hq; [done|].
  destruct j as [|j]; simpl in *.
  - injection Hp as ->. rewrite Hq. by destruct (unfinished q).
  - destruct (unfinished x); simpl; by rewrite (IH j Hp Hq).
Qed.

Lemma unfinished_insert_finished (phases : list phase) (j : nat) (p : phase) :
  phases !! j = Some p -> unfinished p = true ->
  S (length (List.filter unfinished (<[j := Finished]> phases)))
  = length (List.filter unfinished phases).
Proof.
  revert j. induction phases as [|x phases IH]; intros j Hp Hq; [done|].
  destruct j as [|j]; simpl in *.
  - injection Hp as ->. by rewrite Hq.
  - destruct (unfinished x); simpl; by rewrite <- (IH j Hp Hq).
Qed.

Lemma run_tasks_spec (tasks : list task) (input : value)
    (sched : list event) :
  forall (phases : list phase) (slots : list (option AgentResult)) s,
    in_step phases sched ->
    started_sound tasks phases s ->
    Forall (fun t => raises_exceptions_only (t_agent t)) tasks ->
    length phases = length tasks ->
    length slots = length tasks ->
    exists slots' s' cs,
      run_tasks sched input tasks phases slots s = (inr slots', s') /\
      calls s' = calls s ++ cs /\
      length slots' = length tasks /\
      length cs = length (List.filter unfinished phases) /\
      length cs = length (finish_order sched) /\
      (forall k i, finish_order sched !! k = Some i ->
         exists t e,
           tasks !! i = Some t /\
           cs !! k = Some (mkCall (t_agent t) input (Some (t_context t))
                             (t_passed t) e) /\
           slots' !! i = Some (Some e) /\
           agent_name e = name (t_agent t) /\
           dict_get (metadata e) "agent_id"
             = Some (VStr (agent_id (t_agent t)))) /\
      (forall i, i ∉ finish_order sched -> slots' !! i = slots !! i).
Proof.
  induction sched as [|ev rest IH];
    intros phases slots s Hstep Hsound Hpol Hlp Hls.
  - exists slots, s, []. simpl. rewrite app_nil_r.
    repeat split; try done.
    destruct Hstep as [_ Hst].
    assert (List.filter unfinished phases = []) as ->; [|done].
    assert (forall p, p ∈ phases -> p = Finished) as Hall.
    { intros p Hp. apply list_elem_of_lookup in Hp as [i Hi].
      specialize (Hst _ _ Hi). by destruct p. }
    clear -Hall. induction phases as [|x phases IHp]; [done|].
    simpl. rewrite (Hall x) by (by left). simpl. apply IHp.
    intros p Hp. apply Hall. by right.
  - destruct (in_step_head _ _ _ Hstep) as (p & Hp & left_ & Hleft).
    remember (index ev) as j eqn:Hje.
    assert (j < length tasks) as Hj by (apply lookup_lt_Some in Hp; lia).
    destruct (lookup_lt_is_Some_2 tasks j Hj) as [t Ht].
    assert (raises_exceptions_only (t_agent t)) as Hpt.
    { rewrite Forall_forall in Hpol. apply Hpol.
      by apply list_elem_of_lookup_2 in Ht. }
    pose proof (Hsound j t p Ht Hp) as Hsj.
    destruct p as [|t0|t0 r|]; simpl in Hleft; try discriminate;
      injection Hleft as <- <-.
    + (* Start *)
      cbn [run_tasks index]. rewrite Ht, Hp.
      unfold bind at 1. rewrite execute_begin_eq.
      set (s1 := mkState _ _ _ _ _ _ _).
      destruct (IH (<[j := Started (clock s)]> phases) slots s1)
        as (slots' & s' & cs & Hrun & Hcalls & Hl1 & Hl2 & Hl3 & Hcs & Hout);
        try done.
      * by apply (in_step_cons phases (Start j) rest Pending).
      * intros i ti pi Hti Hpi.
        destruct (decide (i = j)) as [->|Hne].
        -- rewrite list_lookup_insert_eq in Hpi by lia. injection Hpi as <-.
           assert (ti = t) as -> by congruence.
           unfold s1; simpl. rewrite lookup_insert_eq. by eexists.
        -- rewrite list_lookup_insert_ne in Hpi by done.
           specialize (Hsound i ti pi Hti Hpi).
           unfold s1; simpl.
           destruct pi; try done.
           ++ destruct Hsound as [x Hx].
              destruct (decide (aref (t_agent t) = aref (t_agent ti)))
                as [->|Hna]; [rewrite lookup_insert_eq; by eexists|].
              rewrite lookup_insert_ne by done. by eexists.
           ++ destruct Hsound as [[x Hx] Hc]. split; [|done].
              destruct (decide (aref (t_agent t) = aref (t_agent ti)))
                as [->|Hna]; [rewrite lookup_insert_eq; by eexists|].
              rewrite lookup_insert_ne by done. by eexists.
      * by rewrite length_insert.
      * exists slots', s', cs. split; [exact Hrun|].
        rewrite (unfinished_insert_same phases j Pending) in Hl2 by done.
        repeat split; try done.
    + (* Run *)
      destruct Hsj as [l Hl].
      cbn [run_tasks index]. rewrite Ht, Hp.
      unfold bind at 1. rewrite (execute_await_eq _ _ _ l Hl).
      set (r := wait_for_run _ _ _ _ _).
      set (s1 := mkState _ _ _ _ _ _ _).
      destruct (IH (<[j := Awaited t0 (completion r)]> phases) slots s1)
        as (slots' & s' & cs & Hrun & Hcalls & Hl1 & Hl2 & Hl3 & Hcs & Hout);
        try done.
      * by apply (in_step_cons phases (Run j) rest (Started t0)).
      * intros i ti pi Hti Hpi.
        destruct (decide (i = j)) as [->|Hne].
        -- rewrite list_lookup_insert_eq in Hpi by lia. injection Hpi as <-.
           assert (ti = t) as -> by congruence.
           unfold s1; simpl. split; [by eexists|]. apply Hpt.
        -- rewrite list_lookup_insert_ne in Hpi by done.
           apply (Hsound i ti pi Hti Hpi).
      * by rewrite length_insert.
      * exists slots', s', cs. split; [exact Hrun|].
        rewrite (unfinished_insert_same phases j (Started t0)) in Hl2 by done.
        repeat split; try done.
    + (* Finish *)
      destruct Hsj as [[l Hl] Hc].
      cbn [run_tasks index]. rewrite Ht, Hp.
      unfold bind at 1.
      destruct (execute_end_eq (t_agent t) t0 r s l Hl Hc)
        as (env & s1 & Hend & Hnm & Hid & Hh & Hac & Hw & Hcl & Hv).
      rewrite Hend. unfold bind at 1. unfold modify at 1.
      set (c := mkCall _ _ _ _ _).
      destruct (IH (<[j := Finished]> phases) (<[j := Some env]> slots)
                  (set_calls (calls s1 ++ [c]) s1))
        as (slots' & s' & cs & Hrun & Hcalls & Hl1 & Hl2 & Hl3 & Hcs & Hout);
        try done.
      * by apply (in_step_cons phases (Finish j) rest (Awaited t0 r)).
      * intros i ti pi Hti Hpi.
        destruct (decide (i = j)) as [->|Hne].
        -- rewrite list_lookup_insert_eq in Hpi by lia. by injection Hpi as <-.
        -- rewrite list_lookup_insert_ne in Hpi by done.
           specialize (Hsound i ti pi Hti Hpi).
           destruct s1; simpl in *. by rewrite Hac.
      * by rewrite length_insert.
      * by rewrite length_insert.
      * assert (j ∉ finish_order rest) as Hnj.
        { intros Hin.
          pose proof (in_step_cons phases (Finish j) rest (Awaited t0 r)
                        Finished Hstep Hp eq_refl) as Hstep'.
          assert (unfinished Finished = true); [|done].
          eapply (finish_order_left _ rest j); [exact Hstep'| |exact Hin].
          apply list_lookup_insert_eq. lia. }
        exists slots', s', (c :: cs). split; [exact Hrun|].
        split; [rewrite Hcalls; destruct s1; simpl in *; rewrite Hcl;
                by rewrite <- app_assoc|].
        split; [done|].
        split; [simpl; rewrite Hl2;
                by apply (unfinished_insert_finished phases j (Awaited t0 r))|].
        split; [simpl; by rewrite Hl3|].
        split.
        -- intros [|k] i Hk; simpl in Hk.
           ++ injection Hk as <-. exists t, env.
              repeat split; try done.
              rewrite (Hout j Hnj). apply list_lookup_insert_eq. lia.
           ++ apply (Hcs k i Hk).
        -- intros i Hi. simpl in Hi. apply not_elem_of_cons in Hi as [Hij Hi].
           rewrite (Hout i Hi). by apply list_lookup_insert_ne.
Qed.

(** *** [execute_parallel] *)

Lemma bound_content context s :
  dict_at (heap_bound context s) (bound_loc context s)
  = passed_content context s.
Proof.
  unfold heap_bound, bound_loc, passed_content, dict_at.
  destruct context as [l|].
  - destruct (heap s !! l) as [[d|items]|] eqn:Hl; simpl.
    + destruct d as [|p d]; simpl.
      * rewrite decide_True by done. by rewrite list_lookup_middle.
      * apply lookup_lt_Some in Hl as Hlt.
        rewrite decide_False by lia. by rewrite Hl.
    + rewrite decide_True by done. by rewrite list_lookup_middle.
    + rewrite decide_True by done. by rewrite list_lookup_middle.
  - rewrite decide_True by done. by rewrite list_lookup_middle.
Qed.

Lemma bound_lt context s :
  bound_loc context s < length (heap_bound context s).
Proof.
  unfold heap_bound. case_decide as Hb.
  - rewrite Hb, length_app. simpl. lia.
  - unfold bound_loc in *. destruct context as [l|]; [|done].
    unfold dict_at in *.
    destruct (heap s !! l) as [[d|items]|] eqn:Hl; simpl in *; try done.
    destruct d; simpl in *; [done|]. by apply lookup_lt_Some in Hl.
Qed.

Lemma interleaving_finishes (n : nat) (sched : list event) (i : nat) :
  interleaving n sched -> i < n -> i ∈ finish_order sched.
Proof.
  intros [_ Hf] Hi. specialize (Hf i Hi).
  assert (Finish i ∈ List.filter (concerns i) sched) as Hin.
  { rewrite Hf. set_solver. }
  apply list_elem_of_In, filter_In in Hin as [Hin _].
  apply list_elem_of_omap. exists (Finish i). split; [|done].
  by apply list_elem_of_In.
Qed.

Lemma mapM_all_Some {A : Type} (l : list (option A)) :
  (forall i, i < length l -> exists x, l !! i = Some (Some x)) ->
  exists xs, mapM (fun o => o) l = Some xs /\ l = Some <$> xs.
Proof.
  induction l as [|o l IH]; intros H; [by exists []|].
  destruct (H 0) as [x Hx]; [simpl; lia|]. simpl in Hx.
  injection Hx as ->.
  destruct IH as (xs & Hm & Hl).
  { intros i Hi. apply (H (S i)). simpl. lia. }
  exists (x :: xs). split; [|simpl; by f_equal].
  simpl. by rewrite Hm.
Qed.

Lemma execute_parallel_spec (o : AgentOrchestrator) (input : value) context
    (sched : list event) s :
  interleaving (length (agents o)) sched ->
  Forall raises_exceptions_only (agents o) ->
  exists rs s' cs base,
    execute_parallel o input context sched s = (inr (Some rs), s') /\
    calls s' = calls s ++ cs /\
    length rs = length (agents o) /\
    length cs = length (agents o) /\
    length (heap s) <= base /\
    bound_loc context s < base /\
    forall k i, finish_order sched !! k = Some i ->
      exists a e,
        agents o !! i = Some a /\
        cs !! k = Some (mkCall a input (Some (base + i))
                          (passed_content context s) e) /\
        rs !! i = Some e /\
        agent_name e = name a /\
        dict_get (metadata e) "agent_id" = Some (VStr (agent_id a)).
Proof.
  intros Hint Hpol.
  set (n := length (agents o)) in *.
  unfold execute_parallel, bind. rewrite async_or_empty_eq.
  set (s1 := set_heap _ s).
  assert (bound_loc context s < length (heap s1)) as Hsh by apply bound_lt.
  rewrite (make_tasks_spec (agents o) _ s1 Hsh). fold n.
  change (heap s1) with (heap_bound context s). rewrite bound_content.
  set (d0 := passed_content context s).
  set (base := length (heap_bound context s)).
  set (tasks := zip_with _ _ _).
  set (s2 := set_heap _ s1).
  assert (length tasks = n) as Hlt.
  { unfold tasks. rewrite length_zip_with_l_eq; [done|]. by rewrite length_seq. }
  unfold gather, bind. rewrite Hlt.
  destruct (run_tasks_spec tasks input sched (replicate n Pending)
              (replicate n None) s2)
    as (slots' & s' & cs & Hrun & Hcalls & Hls & Hlc & _ & Hcs & _).
  { destruct Hint as [Hidx Hf]. split.
    - by rewrite length_replicate.
    - intros i p Hp. apply lookup_replicate in Hp as [-> Hi]. by apply Hf. }
  { intros i t p _ Hp. by apply lookup_replicate in Hp as [-> _]. }
  { apply Forall_forall. intros t Ht.
    apply list_elem_of_lookup in Ht as [i Hi]. unfold tasks in Hi.
    rewrite lookup_tasks in Hi.
    destruct (agents o !! i) as [a|] eqn:Ha; [|done]. injection Hi as <-.
    simpl. rewrite Forall_forall in Hpol. apply Hpol.
    by apply list_elem_of_lookup_2 in Ha. }
  { by rewrite length_replicate. }
  { by rewrite length_replicate. }
  rewrite Hrun.
  destruct (mapM_all_Some slots') as (rs & Hm & Hall).
  { intros i Hi. rewrite Hls, Hlt in Hi.
    pose proof (interleaving_finishes n sched i Hint Hi) as Hin.
    apply list_elem_of_lookup in Hin as [k Hk].
    destruct (Hcs k i Hk) as (t & e & _ & _ & Hsl & _). eauto. }
  unfold ret. rewrite Hm.
  exists rs, s', cs, base.
  split; [done|].
  split; [by rewrite Hcalls|].
  split; [rewrite <- Hlt, <- Hls, Hall; by rewrite length_fmap|].
  split.
  { rewrite Hlc. clear. induction n; simpl; [done|]. by f_equal. }
  split; [unfold base, heap_bound; case_decide; rewrite ?length_app; lia|].
  split; [done|].
  intros k i Hk.
  destruct (Hcs k i Hk) as (t & e & Ht & Hc & Hsl & Hnm & Hid).
  unfold tasks in Ht. rewrite lookup_tasks in Ht.
  destruct (agents o !! i) as [a|] eqn:Ha; [|done]. injection Ht as <-.
  exists a, e. simpl in *. repeat split; try done.
  rewrite Hall, list_lookup_fmap in Hsl.
  destruct (rs !! i); simpl in Hsl; congruence.
Qed.


End Gather.

(** ** [execute_map_reduce] *)

Section MapReduce.

Import Async.

Context {W : Type}.

Implicit Types (s : state W) (a : agent W) (context : option loc).



End MapReduce.

(** ** Objects the orchestrator does not write to *)

Section Frames.

Import Async.

Context {W : Type}.

Implicit Types (s : state W) (a : agent W) (context : option loc).

Lemma heap_bound_lookup context s (l : loc) (obj : object) :
  heap s !! l = Some obj -> heap_bound context s !! l = Some obj.
Proof.
  intros Hl. unfold heap_bound. case_decide; [|done].
  apply lookup_lt_Some in Hl as Hlt. by rewrite lookup_app_l.
Qed.

Lemma bound_loc_ne (c : loc) s (l : loc) (obj : object) :
  heap s !! l = Some obj -> c <> l -> bound_loc (Some c) s <> l.
Proof.
  intros Hl Hc. unfold bound_loc.
  destruct (truthy _); [done|]. apply lookup_lt_Some in Hl. lia.
Qed.

Lemma execute_frame a (input : value) (c : loc) s (l : loc) (obj : object) :
  heap s !! l = Some obj -> c <> l -> leaves_alone a l ->
  heap (snd (execute a input (Some c) s)) !! l = Some obj.
Proof.
  intros Hl Hc Ha.
  destruct (async_execute_returns a input (Some c) s) as [lg Hex].
  rewrite Hex. simpl. unfold awaited_run.
  rewrite Ha by (by eapply bound_loc_ne).
  by apply heap_bound_lookup.
Qed.

Lemma execute_end_frame a (t0 : Q) (r : raised + value) s :
  heap (snd (execute_end a t0 r s)) = heap s /\
  agent_context (snd (execute_end a t0 r s)) = agent_context s.
Proof.
  unfold execute_end, handlers.
  destruct s as [h0 ac w ck lg cs vs].
  destruct r as [[[|c m]| |c m]|v];
    cbv beta iota delta [on_success on_timeout on_exception bind modify gets
      ret self_context raise time logger_error log_agent_action _get_metadata
      read_dict set_heap set_agent_context set_world set_clock set_log
      set_calls set_views heap agent_context world clock log calls views];
    simpl; try done; by destruct (ac !! aref a).
Qed.

Lemma run_tasks_frame (tasks : list task) (input : value) (l : loc)
    (obj : object) (sched : list event) :
  Forall (fun t => leaves_alone (t_agent t) l /\ t_context t <> l) tasks ->
  forall (phases : list phase) (slots : list (option AgentResult)) s,
    heap s !! l = Some obj ->
    started_elsewhere l tasks phases s ->
    heap (snd (run_tasks sched input tasks phases slots s)) !! l = Some obj.
Proof.
  intros Htasks.
  induction sched as [|ev rest IH]; intros phases slots s Hl Hinv; [done|].
  cbn [run_tasks].
  destruct (tasks !! index ev) as [t|] eqn:Ht; [|by apply IH].
  assert (leaves_alone (t_agent t) l /\ t_context t <> l) as [Hla Hne].
  { rewrite Forall_forall in Htasks. apply Htasks.
    by apply list_elem_of_lookup_2 in Ht. }
  destruct (phases !! index ev) as [p|] eqn:Hp; [|by apply IH].
  pose proof (Hinv _ _ _ Ht Hp) as Hj.
  destruct p as [|t0|t0 r|], ev as [j|j|j]; simpl in *; try by apply IH.
  - (* Start *)
    unfold bind at 1. rewrite execute_begin_eq.
    apply IH; cbn [heap]; [by apply heap_bound_lookup|].
    intros i ti pi Hti Hpi.
    assert (bound_loc (Some (t_context t)) s <> l) as Hb
      by (by eapply bound_loc_ne).
    destruct (decide (i = j)) as [->|Hij].
    + apply lookup_lt_Some in Hp.
      rewrite list_lookup_insert_eq in Hpi by done. injection Hpi as <-.
      assert (ti = t) as -> by congruence. cbn [agent_context].
      eexists. split; [apply lookup_insert_eq|done].
    + rewrite list_lookup_insert_ne in Hpi by done.
      specialize (Hinv i ti pi Hti Hpi).
      destruct pi; try done; cbn [agent_context];
        (destruct (decide (aref (t_agent t) = aref (t_agent ti))) as [Hr|Hr];
         [rewrite Hr, lookup_insert_eq; by eexists
         |by rewrite lookup_insert_ne]).
  - (* Run *)
    destruct Hj as (lc & Hlc & Hne').
    unfold bind at 1. rewrite (execute_await_eq _ _ _ lc Hlc).
    apply IH; cbn [heap agent_context]; [by rewrite Hla|].
    intros i ti pi Hti Hpi.
    destruct (decide (i = j)) as [->|Hij].
    + apply lookup_lt_Some in Hp.
      rewrite list_lookup_insert_eq in Hpi by done. injection Hpi as <-.
      assert (ti = t) as -> by congruence. by exists lc.
    + rewrite list_lookup_insert_ne in Hpi by done.
      apply (Hinv i ti pi Hti Hpi).
  - (* Finish *)
    unfold bind at 1.
    destruct (execute_end_frame (t_agent t) t0 r s) as [Hh Hac].
    destruct (execute_end (t_agent t) t0 r s) as [[e|env] s1]; simpl in *;
      [by rewrite Hh|].
    unfold bind at 1. unfold modify at 1.
    apply IH; simpl.
    + destruct s1; simpl in *. by rewrite Hh.
    + intros i ti pi Hti Hpi.
      destruct (decide (i = j)) as [->|Hij].
      * apply lookup_lt_Some in Hp.
        rewrite list_lookup_insert_eq in Hpi by done. by injection Hpi as <-.
      * rewrite list_lookup_insert_ne in Hpi by done.
        specialize (Hinv i ti pi Hti Hpi).
        destruct s1; simpl in *. by rewrite Hac.
Qed.

(** X6. [execute_parallel] itself never writes to an object that existed
    before the call, the caller's context included: whatever the order of
    the steps, and whatever the call returns or raises, such an object is
    afterwards as it was, provided that the agents' computations, which
    run with other objects as their contexts, leave it alone.  (They can
    still change the objects its values refer to.) *)
Theorem execute_parallel_writes_no_existing_object (o : AgentOrchestrator)
    (input : value) context (sched : list event) s (l : loc) (obj : object) :
  heap s !! l = Some obj ->
  Forall (fun a => leaves_alone a l) (agents o) ->
  heap (snd (execute_parallel o input context sched s)) !! l = Some obj.
Proof.
  intros Hl Hla. apply lookup_lt_Some in Hl as Hlt.
  unfold execute_parallel, bind. rewrite async_or_empty_eq.
  set (s1 := set_heap _ s).
  assert (bound_loc context s < length (heap s1)) as Hsh by apply bound_lt.
  rewrite (make_tasks_spec (agents o) _ s1 Hsh).
  set (tasks := zip_with _ _ _).
  set (s2 := set_heap _ s1).
  unfold gather, bind.
  assert (heap s2 !! l = Some obj) as Hl2.
  { unfold s2, s1; simpl. rewrite lookup_app_l.
    - by apply heap_bound_lookup.
    - unfold heap_bound. case_decide; rewrite ?length_app; lia. }
  pose proof (run_tasks_frame tasks input l obj sched) as Hfr.
  specialize (Hfr
    ltac:(apply Forall_forall; intros t Ht;
          apply list_elem_of_lookup in Ht as [i Hi]; unfold tasks in Hi;
          rewrite lookup_tasks in Hi;
          destruct (agents o !! i) as [a|] eqn:Ha; [|done];
          injection Hi as <-; simpl; split;
          [rewrite Forall_forall in Hla; apply Hla;
           by apply list_elem_of_lookup_2 in Ha
          |unfold s1, heap_bound; simpl; case_decide;
           rewrite ?length_app; lia])
    (replicate (length tasks) Pending) (replicate (length tasks) None) s2 Hl2).
  destruct (run_tasks sched input tasks _ _ s2) as [[e|slots] s3]; simpl in *;
    apply Hfr; intros i t p _ Hp; by apply lookup_replicate in Hp as [-> _].
Qed.

Lemma new_dict_copy_eq (l : loc) s :
  new_dict_copy l s
  = (inr (length (heap s)),
     set_heap (heap s ++ [ODict (dict_at (heap s) l)]) s).
Proof. reflexivity. Qed.

Lemma sequential_loop_frame (l : loc) (obj : object) (todo : list (agent W)) :
  Forall (fun a => leaves_alone a l) todo ->
  forall (shared : loc) (results : list AgentResult) (input : value) s,
    heap s !! l = Some obj ->
    heap (snd (sequential_loop shared todo results input s)) !! l = Some obj.
Proof.
  induction todo as [|a rest IH]; intros Hla shared results input s Hl; [done|].
  apply Forall_cons in Hla as [Ha Hla].
  apply lookup_lt_Some in Hl as Hlt.
  cbn [sequential_loop].
  unfold bind at 1. rewrite new_dict_copy_eq.
  set (c := length (heap s)).
  set (s1 := set_heap _ s).
  assert (heap s1 !! l = Some obj) as Hl1
    by (unfold s1; simpl; by rewrite lookup_app_l).
  unfold bind at 1.
  assert (exists s2,
            (if truthy results
             then write_key c "previous_results"
                    (Val (previous_results results))
             else Async.ret tt) s1 = (inr tt, s2) /\
            heap s2 !! l = Some obj) as (s2 & -> & Hl2).
  { destruct (truthy results); [|by exists s1].
    eexists. split; [reflexivity|]. simpl.
    rewrite list_lookup_insert_ne by (unfold c; lia).
    by rewrite lookup_app_l. }
  unfold bind at 1.
  pose proof (execute_frame a input c s2 l obj Hl2 ltac:(unfold c; lia) Ha)
    as Hex.
  destruct (execute a input (Some c) s2) as [[e|result] s3]; simpl in *;
    [done|].
  destruct (success result); simpl.
  - by apply IH.
  - unfold bind, logger_error, modify, ret. by destruct s3.
Qed.

(** X5. [execute_sequential] itself never writes to an object that
    existed before the call, the caller's context included: the
    [previous_results] entry goes to the copies.  Whatever the call
    returns or raises, such an object is afterwards as it was, provided
    that the agents' computations, which run with other objects as their
    contexts, leave it alone. *)
Theorem execute_sequential_writes_no_existing_object (o : AgentOrchestrator)
    (input : value) context s (l : loc) (obj : object) :
  heap s !! l = Some obj ->
  Forall (fun a => leaves_alone a l) (agents o) ->
  heap (snd (execute_sequential o input context s)) !! l = Some obj.
Proof.
  intros Hl Hla. unfold execute_sequential, bind. rewrite async_or_empty_eq.
  apply sequential_loop_frame; [done|]. simpl. by apply heap_bound_lookup.
Qed.

(** X7. In [execute_map_reduce] under a context that is not empty when the
    map phase ends, the reducer's context is the caller's dict object
    itself, not a copy: the computation of the reducer runs on it, and the
    heap after the call is the one that computation left. *)
Theorem map_reduce_reducer_shares_context (o : AgentOrchestrator)
    (input : value) (reducer : agent W) (l : loc) (sched : list event) s :
  interleaving (length (agents o)) sched ->
  Forall raises_exceptions_only (agents o) ->
  exists map_results s1,
    execute_parallel o input (Some l) sched s = (inr (Some map_results), s1) /\
    (List.filter success map_results <> [] ->
     dict_at (heap s1) l <> [] ->
     let reduce_in := reduce_input (List.filter success map_results) in
     exists res s',
       execute_map_reduce o input reducer (Some l) sched s = (res, s') /\
       agent_context s' !! aref reducer = Some l /\
       heap s'
       = heap_after (wait_for_run (timeout reducer)
                       (_execute reducer reduce_in) l (heap s1) (world s1))).
Proof.
  intros Hint Hpol.
  destruct (execute_parallel_spec o input (Some l) sched s Hint Hpol)
    as (rs & s1 & cs & base & Hrun & _).
  exists rs, s1. split; [done|]. intros Hne Hd reduce_in.
  unfold execute_map_reduce, bind. rewrite Hrun. subst reduce_in.
  destruct (List.filter success rs) as [|e0 l0] eqn:Hf; [done|]. simpl.
  destruct (async_execute_returns reducer (reduce_input (e0 :: l0)) (Some l) s1)
    as [lg Hex].
  assert (bound_loc (Some l) s1 = l) as Hbl.
  { unfold bound_loc. by destruct (dict_at (heap s1) l). }
  assert (heap_bound (Some l) s1 = heap s1) as Hhb.
  { unfold heap_bound. rewrite Hbl. case_decide as Hlen; [|done].
    exfalso. apply Hd. unfold dict_at.
    by rewrite lookup_ge_None_2 by lia. }
  unfold awaited_run in Hex. rewrite Hbl, Hhb in Hex.
  rewrite Hex.
  destruct (envelope _ _ _ _) as [e|env]; simpl; unfold ret;
    eexists _, _; (split; [reflexivity|]); simpl;
    by rewrite lookup_insert_eq.
Qed.

End Frames.

(** ** The orchestrator at concrete agents *)

Section ParallelExamples.

Import Async.


(** The run of the counterexample: the second agent returns the list with
    the element the first has appended, and the caller's list holds it
    too, in both orders of the steps. *)
Example append_and_read_run :
  fst (execute_parallel append_and_read (VInt 1) (Some 0%nat) steps_two_tasks
         async_shared)
  = inr (Some
      [mkAgentResult "append" true VNone None 0
         [("agent_id", VStr "append_8a3b5c17");
          ("context_keys", VList [VStr "shared"])];
       mkAgentResult "read" true (VList [VInt 5]) None 0
         [("agent_id", VStr "read_e94d2f60");
          ("context_keys", VList [VStr "shared"])]]) /\
  heap (snd (execute_parallel append_and_read (VInt 1) (Some 0%nat)
               steps_two_tasks async_shared)) !! 1%nat
  = Some (OList [Val (VInt 5)]) /\
  fst (execute_parallel append_and_read (VInt 1) (Some 0%nat) steps_one_by_one
         async_shared)
  = fst (execute_parallel append_and_read (VInt 1) (Some 0%nat)
           steps_two_tasks async_shared).
Proof. vm_compute. repeat split; reflexivity. Qed.


(** The same run: the envelopes are in registration order although the
    second agent finished first. *)
Example double_and_fail_run :
  fst (execute_parallel double_and_fail (VInt 5) (Some 0%nat)
         steps_second_first async_ctx)
  = inr (Some
      [mkAgentResult "double" true (VInt 10) None 60
         [("agent_id", VStr "double_3f2a91c0");
          ("context_keys", VList [VStr "user"])];
       mkAgentResult "fail" false VNone (Some "boom") 10
         [("agent_id", VStr "fail_77aa01be");
          ("context_keys", VList [VStr "user"])]]).
Proof. vm_compute. reflexivity. Qed.


(** What the two branches of [execute_map_reduce] give: the reducer's
    envelope when [double] succeeded, the failure envelope when the only
    map agent failed. *)
Example map_reduce_runs :
  fst (execute_map_reduce double_and_fail (VInt 5) summing_async None
         steps_second_first async_s0)
  = inr (Some (mkAgentResult "sum" true (VInt 10) None 5
                 [("agent_id", VStr "sum_c41e88f3");
                  ("context_keys", VList [])])) /\
  fst (execute_map_reduce (mkOrchestrator "orchestrator" [failing_async])
         (VInt 5) summing_async None [Start 0; Run 0; Finish 0] async_s0)
  = inr (Some (mkAgentResult "map_reduce" false VNone
                 (Some "All map agents failed") 10
                 [("failed_agents", VList [VStr "fail"])])).
Proof. vm_compute. split; reflexivity. Qed.

(** An agent object registered twice has one [_context] attribute: when
    both tasks have bound it before either computation runs, the two
    computations write into the same dict, and both envelopes list both
    keys; when the tasks run one after the other, each envelope lists the
    key of its own computation. *)
Example same_agent_registered_twice :
  map (fun e => dict_get (metadata e) "context_keys")
    (default []
       (match fst (execute_parallel
                     (mkOrchestrator "orchestrator" [keying; keying])
                     (VInt 1) None steps_two_tasks async_s0)
        with inr (Some rs) => Some rs | _ => None end))
  = [Some (VList [VStr "k0"; VStr "k1"]); Some (VList [VStr "k0"; VStr "k1"])] /\
  map (fun e => dict_get (metadata e) "context_keys")
    (default []
       (match fst (execute_parallel
                     (mkOrchestrator "orchestrator" [keying; keying])
                     (VInt 1) None steps_one_by_one async_s0)
        with inr (Some rs) => Some rs | _ => None end))
  = [Some (VList [VStr "k0"]); Some (VList [VStr "k1"])].
Proof. vm_compute. split; reflexivity. Qed.

(** A computation that raises [asyncio.CancelledError] makes the whole
    [execute_parallel] raise it. *)
Example parallel_cancelled :
  fst (execute_parallel (mkOrchestrator "orchestrator" [doubling; cancelling])
         (VInt 5) None steps_two_tasks async_s0)
  = inl CancelledError.
Proof. vm_compute. reflexivity. Qed.

(** X6 at [mark; double] under the caller's dict: [mark] writes into its
    own copy. *)
Lemma execute_parallel_writes_no_existing_object_witness :
  heap (snd (execute_parallel mark_and_double (VInt 5) (Some 0%nat)
               steps_second_first async_ctx)) !! 0%nat
  = Some (ODict [("user", Val (VStr "u1"))]).
Proof.
  apply (execute_parallel_writes_no_existing_object mark_and_double (VInt 5)
           (Some 0%nat) steps_second_first async_ctx 0%nat
           (ODict [("user", Val (VStr "u1"))])).
  - reflexivity.
  - constructor;
      [intros input lc h w Hne; simpl; by apply list_lookup_insert_ne|].
    constructor; [intros input lc h w Hne; reflexivity|constructor].
Defined.

(** X5 at [mark; double] under the caller's dict. *)
Lemma execute_sequential_writes_no_existing_object_witness :
  heap (snd (execute_sequential mark_and_double (VInt 5) (Some 0%nat)
               async_ctx)) !! 0%nat
  = Some (ODict [("user", Val (VStr "u1"))]).
Proof.
  apply (execute_sequential_writes_no_existing_object mark_and_double (VInt 5)
           (Some 0%nat) async_ctx 0%nat (ODict [("user", Val (VStr "u1"))])).
  - reflexivity.
  - constructor;
      [intros input lc h w Hne; simpl; by apply list_lookup_insert_ne|].
    constructor; [intros input lc h w Hne; reflexivity|constructor].
Defined.

(** The sequential run of [mark; double] on 5 under the caller's dict:
    the second agent finds [previous_results] in its copy, and the
    caller's dict has neither that key nor the key [mark] has written. *)
Example sequential_mark_and_double :
  fst (execute_sequential mark_and_double (VInt 5) (Some 0%nat) async_ctx)
  = inr [mkAgentResult "mark" true (VInt 5) None 10
           [("agent_id", VStr "mark_5d0c2e19");
            ("context_keys", VList [VStr "user"; VStr "seen"])];
         mkAgentResult "double" true (VInt 10) None 50
           [("agent_id", VStr "double_3f2a91c0");
            ("context_keys", VList [VStr "user"; VStr "previous_results"])]] /\
  dict_at (heap (snd (execute_sequential mark_and_double (VInt 5)
                        (Some 0%nat) async_ctx))) 0
  = [("user", Val (VStr "u1"))].
Proof. vm_compute. split; reflexivity. Qed.

(** X7 at [double; fail] reduced by [mark] under the caller's dict. *)
Lemma map_reduce_reducer_shares_context_witness :
  exists map_results s1,
    execute_parallel double_and_fail (VInt 5) (Some 0%nat) steps_second_first
      async_ctx = (inr (Some map_results), s1) /\
    (List.filter success map_results <> [] ->
     dict_at (heap s1) 0 <> [] ->
     let reduce_in := reduce_input (List.filter success map_results) in
     exists res s',
       execute_map_reduce double_and_fail (VInt 5) marking_async (Some 0%nat)
         steps_second_first async_ctx = (res, s') /\
       agent_context s' !! aref marking_async = Some 0%nat /\
       heap s'
       = heap_after (wait_for_run (timeout marking_async)
                       (_execute marking_async reduce_in) 0 (heap s1)
                       (world s1))).
Proof.
  apply (map_reduce_reducer_shares_context double_and_fail (VInt 5)
           marking_async 0%nat steps_second_first async_ctx).
  - split; [repeat constructor; simpl; lia|].
    intros [|[|i]] Hi; try reflexivity; simpl in Hi; lia.
  - constructor; [intros input l h w; by destruct input|].
    constructor; [intros input l h w; exact I|constructor].
Defined.

(** The same run: after it the caller's dict holds the key the reducer
    has written. *)
Example map_reduce_marks_callers_context :
  dict_at (heap (snd (execute_map_reduce double_and_fail (VInt 5)
                        marking_async (Some 0%nat) steps_second_first
                        async_ctx))) 0
  = [("user", Val (VStr "u1")); ("seen", Val (VBool true))].
Proof. vm_compute. reflexivity. Qed.

End ParallelExamples.
